(** * ConcurrentArena: a sharded, thread-safe front end of the bump Arena

    A shallow embedding of [memory/concurrent_arena.h] and
    [memory/concurrent_arena.cc] and the properties its design document
    states about it.

    Conventions of the embedding.
    - [size_t] is a 64-bit unsigned integer (LP64): a [Z] in [0, 2^64), with
      every wrap-around of the source written out with [wrap].
      A pointer takes 8 bytes.
    - A [char *] is the address it holds, a [Z]; [nullptr] is 0.
    - [assert] is modelled as it behaves in a build with assertions on: a
      violated assertion aborts the call, which then returns [None].
    - A call of [AllocateImpl] touches a shard only under that shard's
      mutex and the arena only under the arena mutex, the latter taken
      inside the former; the model executes a call as one step and takes
      what the call observes of the other threads (the outcome of each
      [try_lock], the core it runs on) from an [Env].  A relaxed load
      returns the value the counter holds.  The lock operations a call
      performs are recorded as a list of [Event]s.
    - [Arena] ([memory/arena.h]) is consumed through its interface only: the
      development is parametric in an implementation of [ArenaOps] that
      satisfies [ArenaLaws]. *)

From Stdlib Require Import ZArith Lia Bool.
From stdpp Require Import base option list gmap.

Local Open Scope Z_scope.

(** ** Machine integers *)

Module SizeT.
Definition bits : Z := 64.
Definition modulus : Z := 2 ^ bits.
Definition max : Z := modulus - 1.

(** The value a [size_t] expression takes after the arithmetic [z]. *)
Definition wrap (z : Z) : Z := z mod modulus.

Definition in_range (z : Z) : Prop := 0 <= z < modulus.
End SizeT.

Abbreviation wrap := SizeT.wrap.
Abbreviation size_t_range := SizeT.in_range.

(** The size of a pointer, [sizeof] of [void *]. *)
Definition sizeof_ptr : Z := 8.

(** [const size_t kMaxShardBlockSize = size_t{128 * 1024};] *)
Definition kMaxShardBlockSize : Z := 128 * 1024.

(** ** The per-core slot array *)

(** Modelled from the spec: [CoreLocalArray] of [util/core_local.h], whose
    source is absent.  It owns [Size()] slots, a power of two
    ([static_cast<size_t>(1) << size_shift_], as the comment in
    [AllocateImpl] records), each addressable by index, and reports the slot
    of the current execution context together with its index. *)
Record CoreLocalArray (T : Type) : Type := MkCoreLocalArray {
  size_shift_ : nat;
  data_ : list T
}.
Arguments MkCoreLocalArray {T} _ _.
Arguments size_shift_ {T} _.
Arguments data_ {T} _.

Module CoreLocal.
Section Ops.
Context {T : Type}.

(** Modelled from the spec: [Size()] of the absent [CoreLocalArray], the
    slot count [static_cast<size_t>(1) << size_shift_]. *)
Definition Size (a : CoreLocalArray T) : Z :=
  wrap (Z.shiftl 1 (Z.of_nat (size_shift_ a))).

(** Modelled from the spec: [AccessAtCore(core_idx)] of the absent
    [CoreLocalArray], the slot at a valid index. *)
Definition AccessAtCore (a : CoreLocalArray T) (core_idx : Z) : option T :=
  if (0 <=? core_idx) && (core_idx <? Size a)
  then data_ a !! Z.to_nat core_idx
  else None.

(** Modelled from the spec: [AccessElementAndIndex()] of the absent
    [CoreLocalArray], the slot of the core the caller runs on and that
    core's index, which is the index of a slot. *)
Definition AccessElementAndIndex (a : CoreLocalArray T) (core_idx : Z)
  : option (T * Z) :=
  s ← AccessAtCore a core_idx; Some (s, core_idx).

(** Modelled from the spec: writing through the pointer
    [AccessAtCore(core_idx)] of the absent [CoreLocalArray] returned. *)
Definition store (a : CoreLocalArray T) (core_idx : Z) (s : T)
  : CoreLocalArray T :=
  MkCoreLocalArray (size_shift_ a) (<[Z.to_nat core_idx := s]> (data_ a)).

(** Modelled from the spec: the constructor of the absent
    [CoreLocalArray], [2^shift] default-constructed slots. *)
Definition make (shift : nat) (dflt : T) : CoreLocalArray T :=
  MkCoreLocalArray shift (replicate (2 ^ shift)%nat dflt).
End Ops.
End CoreLocal.

(** ** The underlying arena, through its interface *)

(** The operations [ConcurrentArena] calls on [Arena].  The allocation
    tracker and the logger are passive sinks and are left out. *)
Class ArenaOps (A : Type) : Type := {
  (** [Arena(block_size, tracker, huge_page_size)] *)
  Arena_new : Z -> Z -> A;
  (** [Allocate(bytes)] *)
  Arena_Allocate : A -> Z -> Z * A;
  (** [AllocateAligned(bytes, huge_page_size, logger)] *)
  Arena_AllocateAligned : A -> Z -> Z -> Z * A;
  Arena_ApproximateMemoryUsage : A -> Z;
  Arena_MemoryAllocatedBytes : A -> Z;
  Arena_AllocatedAndUnused : A -> Z;
  Arena_IrregularBlockNum : A -> Z;
  Arena_BlockSize : A -> Z;
  Arena_IsInInlineBlock : A -> bool
}.

Definition in_range (p n x : Z) : Prop := p <= x < p + n.

(** Specification state of an arena: the addresses it may still hand out. *)
Class ArenaGhost (A : Type) : Type := {
  arena_free : A -> Z -> Prop
}.

(** What [ConcurrentArena] relies on: the arena never hands a byte out
    twice, its aligned allocation returns word-aligned addresses, and its
    count of unused bytes is a [size_t]. *)
Class ArenaLaws (A : Type) `{ArenaOps A} `{ArenaGhost A} : Prop := {
  Allocate_fresh : forall a n p a',
    Arena_Allocate a n = (p, a') ->
    (forall x, in_range p n x -> arena_free a x) /\
    (forall x, arena_free a' x -> arena_free a x /\ ~ in_range p n x);
  AllocateAligned_fresh : forall a n h p a',
    Arena_AllocateAligned a n h = (p, a') ->
    (forall x, in_range p n x -> arena_free a x) /\
    (forall x, arena_free a' x -> arena_free a x /\ ~ in_range p n x);
  AllocateAligned_aligned : forall a n h,
    (Arena_AllocateAligned a n h).1 mod sizeof_ptr = 0;
  AllocatedAndUnused_range : forall a,
    size_t_range (Arena_AllocatedAndUnused a)
}.

(** ** Shards and the concurrent arena *)

(** [struct Shard]; the padding is left out and the spin lock is represented
    by the lock events of a call. *)
Record Shard : Type := MkShard {
  free_begin_ : Z;
  allocated_and_unused_ : Z
}.

(** [Shard() : free_begin_(nullptr), allocated_and_unused_(0) {}] *)
Definition Shard_new : Shard := MkShard 0 0.

(** What a call observes of the rest of the system. *)
Record Env : Type := MkEnv {
  (** whether [arena_lock.try_lock()] succeeds *)
  arena_try_lock : bool;
  (** whether [s->mutex.try_lock()] succeeds *)
  shard_try_lock : bool;
  (** the index [AccessElementAndIndex()] reports *)
  core_index : Z
}.

Inductive Event : Type :=
| ArenaTryLock (ok : bool)
| ArenaLock
| ArenaUnlock
| ShardTryLock (shard : Z) (ok : bool)
| ShardLock (shard : Z)
| ShardUnlock (shard : Z).

(** The two closures [Allocate] and [AllocateAligned] pass as [func]. *)
Inductive Func : Type :=
| FAllocate (bytes : Z)
| FAllocateAligned (rounded_up huge_page_size : Z).

(** Which way a request was served. *)
Inductive Path : Type :=
| DirectPath
| InlineBlockPath (shard : Z)
| ShardPath (shard : Z) (reloaded : bool).

(** [rounded_up] of [AllocateAligned]. *)
Definition rounded_up (bytes : Z) : Z :=
  wrap (Z.lor (wrap (bytes - 1)) (wrap (sizeof_ptr - 1)) + 1).

(** The assertion of [AllocateAligned]. *)
Definition rounded_up_ok (bytes : Z) : bool :=
  (bytes <=? rounded_up bytes)
  && (rounded_up bytes <? wrap (bytes + sizeof_ptr))
  && (rounded_up bytes mod sizeof_ptr =? 0).

(** [class ConcurrentArena]: the data members, without the padding; the
    spin lock [arena_mutex_] is represented by the lock events of a call. *)
Record ConcurrentArena (A : Type) : Type := MkConcurrentArena {
  shard_block_size_ : Z;
  shards_ : CoreLocalArray Shard;
  arena_ : A;
  arena_allocated_and_unused_ : Z;
  memory_allocated_bytes_ : Z;
  irregular_block_num_ : Z
}.
Arguments MkConcurrentArena {A} _ _ _ _ _ _.
Arguments shard_block_size_ {A} _.
Arguments shards_ {A} _.
Arguments arena_ {A} _.
Arguments arena_allocated_and_unused_ {A} _.
Arguments memory_allocated_bytes_ {A} _.
Arguments irregular_block_num_ {A} _.

(** What a call of [AllocateImpl] leaves behind: the pointer it returns, the
    arena and the caller's [tls_cpuid] after the call, the way the request
    was served and the lock operations performed. *)
Record Outcome (A : Type) : Type := MkOutcome {
  rv : Z;
  after : ConcurrentArena A;
  tls_after : Z;
  path : Path;
  events : list Event
}.
Arguments MkOutcome {A} _ _ _ _ _.
Arguments rv {A} _.
Arguments after {A} _.
Arguments tls_after {A} _.
Arguments path {A} _.
Arguments events {A} _.

Section Impl.
Context {A : Type} `{ArenaOps A}.

Definition set_arena (ca : ConcurrentArena A) (a : A) : ConcurrentArena A :=
  MkConcurrentArena (shard_block_size_ ca) (shards_ ca) a
    (arena_allocated_and_unused_ ca) (memory_allocated_bytes_ ca)
    (irregular_block_num_ ca).

Definition set_shard (ca : ConcurrentArena A) (i : Z) (s : Shard)
  : ConcurrentArena A :=
  MkConcurrentArena (shard_block_size_ ca)
    (CoreLocal.store (shards_ ca) i s) (arena_ ca)
    (arena_allocated_and_unused_ ca) (memory_allocated_bytes_ ca)
    (irregular_block_num_ ca).

(** [Fixup()]: refresh the three cached counters from the arena. *)
Definition Fixup (ca : ConcurrentArena A) : ConcurrentArena A :=
  MkConcurrentArena (shard_block_size_ ca) (shards_ ca) (arena_ ca)
    (Arena_AllocatedAndUnused (arena_ ca))
    (Arena_MemoryAllocatedBytes (arena_ ca))
    (Arena_IrregularBlockNum (arena_ ca)).

(** The constructor.  [shift] is the [size_shift_] the slot array derives
    from the hardware concurrency. *)
Definition ConcurrentArena_new (shift : nat) (block_size huge_page_size : Z)
  : ConcurrentArena A :=
  Fixup (MkConcurrentArena
           (Z.min kMaxShardBlockSize (block_size / 8))
           (CoreLocal.make shift Shard_new)
           (Arena_new block_size huge_page_size)
           0 0 0).

(** [func()] *)
Definition call_func (func : Func) (a : A) : Z * A :=
  match func with
  | FAllocate bytes => Arena_Allocate a bytes
  | FAllocateAligned rounded huge_page_size =>
      Arena_AllocateAligned a rounded huge_page_size
  end.

(** Slot 0's shard reports zero remaining capacity. *)
Definition shard0_empty (ca : ConcurrentArena A) : Prop :=
  exists s0, CoreLocal.AccessAtCore (shards_ ca) 0 = Some s0
             /\ allocated_and_unused_ s0 = 0.

(** The condition of the first [if] of [AllocateImpl], evaluated left to
    right with the short circuits of [||] and [&&]: whether the request
    goes to the arena directly, and the lock operation the evaluation
    performed. *)
Definition goes_direct (ca : ConcurrentArena A) (tls_cpuid : Z) (env : Env)
    (bytes : Z) (force_arena : bool) : option (bool * list Event) :=
  if shard_block_size_ ca / 4 <? bytes then Some (true, [])
  else if force_arena then Some (true, [])
  else if negb (tls_cpuid =? 0) then Some (false, [])
  else
    s0 ← CoreLocal.AccessAtCore (shards_ ca) 0;
    if negb (allocated_and_unused_ s0 =? 0) then Some (false, [])
    else Some (arena_try_lock env, [ArenaTryLock (arena_try_lock env)]).

(** [arena_lock.owns_lock()] after that evaluation. *)
Definition owns_lock (ev : list Event) : bool :=
  match ev with
  | [ArenaTryLock true] => true
  | _ => false
  end.

(** [Repick()]: the index of the shard it returns and the [tls_cpuid] it
    stores. *)
Definition Repick (ca : ConcurrentArena A) (env : Env) : option (Z * Z) :=
  shard_and_index ← CoreLocal.AccessElementAndIndex (shards_ ca) (core_index env);
  Some (shard_and_index.2,
        Z.lor shard_and_index.2 (CoreLocal.Size (shards_ ca))).

(** The index [cpu & (shards_.Size() - 1)] of the shard tried first. *)
Definition shard_of (ca : ConcurrentArena A) (cpu : Z) : Z :=
  Z.land cpu (wrap (CoreLocal.Size (shards_ ca) - 1)).

(** Picking and locking a shard: the index of the shard locked, the
    caller's [tls_cpuid] afterwards, the lock operations. *)
Definition lock_shard (ca : ConcurrentArena A) (cpu : Z) (env : Env)
  : option (Z * Z * list Event) :=
  let i := shard_of ca cpu in
  _ ← CoreLocal.AccessAtCore (shards_ ca) i;
  if shard_try_lock env then Some (i, cpu, [ShardTryLock i true])
  else
    r ← Repick ca env;
    Some (r.1, r.2, [ShardTryLock i false; ShardLock r.1]).

(** The size of the window a reload requests from the arena. *)
Definition reload_size (ca : ConcurrentArena A) (exact : Z) : Z :=
  if (shard_block_size_ ca / 2 <=? exact)
     && (exact <? wrap (shard_block_size_ ca * 2))
  then exact
  else shard_block_size_ ca.

(** The tail of [AllocateImpl]: store the new capacity, then take [bytes]
    from the front of the window if [bytes] is a multiple of the pointer
    size and from its end otherwise. *)
Definition carve (s : Shard) (avail bytes : Z) : Z * Shard :=
  let s1 := MkShard (free_begin_ s) (wrap (avail - bytes)) in
  if bytes mod sizeof_ptr =? 0
  then (free_begin_ s1,
        MkShard (free_begin_ s1 + bytes) (allocated_and_unused_ s1))
  else (free_begin_ s1 + avail - bytes, s1).

(** The lock operations of a request served by the arena directly. *)
Definition direct_events (ev0 : list Event) : list Event :=
  ev0 ++ (if owns_lock ev0 then [] else [ArenaLock]) ++ [ArenaUnlock].

(** [AllocateImpl(bytes, force_arena, func)] called by a thread whose
    [tls_cpuid] is [tls_cpuid]. *)
Definition AllocateImpl (ca : ConcurrentArena A) (tls_cpuid : Z) (env : Env)
    (bytes : Z) (force_arena : bool) (func : Func) : option (Outcome A) :=
  d ← goes_direct ca tls_cpuid env bytes force_arena;
  let '(direct, ev0) := d : bool * list Event in
  if direct then
    let '(p, a) := call_func func (arena_ ca) in
    Some (MkOutcome p (Fixup (set_arena ca a)) tls_cpuid DirectPath
            (direct_events ev0))
  else
    l ← lock_shard ca tls_cpuid env;
    let '(i, cpu, ev1) := l : Z * Z * list Event in
    s ← CoreLocal.AccessAtCore (shards_ ca) i;
    let avail := allocated_and_unused_ s in
    if avail <? bytes then
      (* reload *)
      let exact := arena_allocated_and_unused_ ca in
      if negb (exact =? Arena_AllocatedAndUnused (arena_ ca)) then None
      else if (bytes <=? exact) && Arena_IsInInlineBlock (arena_ ca) then
        let '(p, a) := call_func func (arena_ ca) in
        Some (MkOutcome p (Fixup (set_arena ca a)) cpu (InlineBlockPath i)
                (ev0 ++ ev1 ++ [ArenaLock; ArenaUnlock; ShardUnlock i]))
      else
        let avail := reload_size ca exact in
        let '(p, a) := Arena_AllocateAligned (arena_ ca) avail 0 in
        let ca1 := Fixup (set_arena ca a) in
        let '(q, s') := carve (MkShard p (allocated_and_unused_ s)) avail bytes in
        Some (MkOutcome q (set_shard ca1 i s') cpu (ShardPath i true)
                (ev0 ++ ev1 ++ [ArenaLock; ArenaUnlock; ShardUnlock i]))
    else
      let '(q, s') := carve s avail bytes in
      Some (MkOutcome q (set_shard ca i s') cpu (ShardPath i false)
              (ev0 ++ ev1 ++ [ShardUnlock i])).

(** [AllocateImpl] as a relation, one rule for each way through the
    function. *)
Inductive Serves (ca : ConcurrentArena A) (tls_cpuid : Z) (env : Env)
    (bytes : Z) (force_arena : bool) (func : Func) : Outcome A -> Prop :=
| Serves_direct ev0 p a :
    goes_direct ca tls_cpuid env bytes force_arena = Some (true, ev0) ->
    call_func func (arena_ ca) = (p, a) ->
    Serves ca tls_cpuid env bytes force_arena func
      (MkOutcome p (Fixup (set_arena ca a)) tls_cpuid DirectPath
         (direct_events ev0))
| Serves_inline ev0 i cpu ev1 s p a :
    goes_direct ca tls_cpuid env bytes force_arena = Some (false, ev0) ->
    lock_shard ca tls_cpuid env = Some (i, cpu, ev1) ->
    CoreLocal.AccessAtCore (shards_ ca) i = Some s ->
    allocated_and_unused_ s < bytes ->
    arena_allocated_and_unused_ ca = Arena_AllocatedAndUnused (arena_ ca) ->
    bytes <= arena_allocated_and_unused_ ca ->
    Arena_IsInInlineBlock (arena_ ca) = true ->
    call_func func (arena_ ca) = (p, a) ->
    Serves ca tls_cpuid env bytes force_arena func
      (MkOutcome p (Fixup (set_arena ca a)) cpu (InlineBlockPath i)
         (ev0 ++ ev1 ++ [ArenaLock; ArenaUnlock; ShardUnlock i]))
| Serves_reload ev0 i cpu ev1 s p a q s' :
    goes_direct ca tls_cpuid env bytes force_arena = Some (false, ev0) ->
    lock_shard ca tls_cpuid env = Some (i, cpu, ev1) ->
    CoreLocal.AccessAtCore (shards_ ca) i = Some s ->
    allocated_and_unused_ s < bytes ->
    arena_allocated_and_unused_ ca = Arena_AllocatedAndUnused (arena_ ca) ->
    ~ (bytes <= arena_allocated_and_unused_ ca
       /\ Arena_IsInInlineBlock (arena_ ca) = true) ->
    Arena_AllocateAligned (arena_ ca)
      (reload_size ca (arena_allocated_and_unused_ ca)) 0 = (p, a) ->
    carve (MkShard p (allocated_and_unused_ s))
      (reload_size ca (arena_allocated_and_unused_ ca)) bytes = (q, s') ->
    Serves ca tls_cpuid env bytes force_arena func
      (MkOutcome q (set_shard (Fixup (set_arena ca a)) i s') cpu
         (ShardPath i true)
         (ev0 ++ ev1 ++ [ArenaLock; ArenaUnlock; ShardUnlock i]))
| Serves_shard ev0 i cpu ev1 s q s' :
    goes_direct ca tls_cpuid env bytes force_arena = Some (false, ev0) ->
    lock_shard ca tls_cpuid env = Some (i, cpu, ev1) ->
    CoreLocal.AccessAtCore (shards_ ca) i = Some s ->
    bytes <= allocated_and_unused_ s ->
    carve s (allocated_and_unused_ s) bytes = (q, s') ->
    Serves ca tls_cpuid env bytes force_arena func
      (MkOutcome q (set_shard ca i s') cpu (ShardPath i false)
         (ev0 ++ ev1 ++ [ShardUnlock i])).

(** [Allocate(bytes)] *)
Definition Allocate (ca : ConcurrentArena A) (tls_cpuid : Z) (env : Env)
    (bytes : Z) : option (Outcome A) :=
  AllocateImpl ca tls_cpuid env bytes false (FAllocate bytes).

(** [AllocateAligned(bytes, huge_page_size, logger)] *)
Definition AllocateAligned (ca : ConcurrentArena A) (tls_cpuid : Z)
    (env : Env) (bytes huge_page_size : Z) : option (Outcome A) :=
  if rounded_up_ok bytes then
    AllocateImpl ca tls_cpuid env (rounded_up bytes)
      (negb (huge_page_size =? 0))
      (FAllocateAligned (rounded_up bytes) huge_page_size)
  else None.

(** *** Queries

    A query returns its value together with the arena it leaves behind and
    the lock operations it performed. *)

(** The loop of [ShardAllocatedAndUnused()], from index [i], [n] rounds to
    go. *)
Fixpoint sum_shards (shards : CoreLocalArray Shard) (i : Z) (n : nat)
    (total : Z) : option Z :=
  match n with
  | O => Some total
  | S n' =>
      s ← CoreLocal.AccessAtCore shards i;
      sum_shards shards (i + 1) n' (wrap (total + allocated_and_unused_ s))
  end.

Definition ShardAllocatedAndUnused (ca : ConcurrentArena A) : option Z :=
  sum_shards (shards_ ca) 0 (Z.to_nat (CoreLocal.Size (shards_ ca))) 0.

Definition Query (R : Type) : Type :=
  ConcurrentArena A -> option (R * ConcurrentArena A * list Event).

Definition ApproximateMemoryUsage : Query Z := fun ca =>
  total ← ShardAllocatedAndUnused ca;
  Some (wrap (Arena_ApproximateMemoryUsage (arena_ ca) - total), ca,
        [ArenaLock; ArenaUnlock]).

Definition MemoryAllocatedBytes : Query Z := fun ca =>
  Some (memory_allocated_bytes_ ca, ca, []).

Definition AllocatedAndUnused : Query Z := fun ca =>
  total ← ShardAllocatedAndUnused ca;
  Some (wrap (arena_allocated_and_unused_ ca + total), ca, []).

Definition IrregularBlockNum : Query Z := fun ca =>
  Some (irregular_block_num_ ca, ca, []).

Definition BlockSize : Query Z := fun ca =>
  Some (Arena_BlockSize (arena_ ca), ca, []).

(** *** Threads

    [tls_cpuid] is thread local and starts at 0 in every thread: a map from
    thread ids, absent meaning 0.  It is a static member, one for each
    thread and shared by all the instances of the process; the constructor
    does not touch it. *)

Inductive Request : Type :=
| ReqAllocate (bytes : Z)
| ReqAllocateAligned (bytes huge_page_size : Z).

Definition requested (r : Request) : Z :=
  match r with
  | ReqAllocate bytes => bytes
  | ReqAllocateAligned bytes _ => bytes
  end.

Record Call : Type := MkCall {
  caller : nat;
  request : Request;
  call_env : Env
}.

Record System : Type := MkSystem {
  the_arena : ConcurrentArena A;
  tls_cpuid : gmap nat Z
}.

Definition tls_of (sys : System) (thread : nat) : Z :=
  default 0 (tls_cpuid sys !! thread).

(** A new instance in a process none of whose threads has run [Repick]
    yet: every [tls_cpuid] still has its initial value. *)
Definition boot (shift : nat) (block_size huge_page_size : Z) : System :=
  MkSystem (ConcurrentArena_new shift block_size huge_page_size) ∅.

(** A new instance in a process whose threads carry the ids [ids], which
    calls on earlier instances may have left: the constructor leaves
    [tls_cpuid] alone. *)
Definition boot_among (ids : gmap nat Z) (shift : nat)
    (block_size huge_page_size : Z) : System :=
  MkSystem (ConcurrentArena_new shift block_size huge_page_size) ids.

Definition perform (sys : System) (c : Call) : option (Outcome A) :=
  match request c with
  | ReqAllocate bytes =>
      Allocate (the_arena sys) (tls_of sys (caller c)) (call_env c) bytes
  | ReqAllocateAligned bytes huge_page_size =>
      AllocateAligned (the_arena sys) (tls_of sys (caller c)) (call_env c)
        bytes huge_page_size
  end.

Definition commit (sys : System) (c : Call) (o : Outcome A) : System :=
  MkSystem (after o) (<[caller c := tls_after o]> (tls_cpuid sys)).

(** A sequence of calls, each run to completion; the outcomes in order. *)
Fixpoint run (sys : System) (calls : list Call)
  : option (list (Outcome A) * System) :=
  match calls with
  | [] => Some ([], sys)
  | c :: calls' =>
      o ← perform sys c;
      r ← run (commit sys c o) calls';
      Some (o :: r.1, r.2)
  end.

(** The byte range a completed call handed to its caller. *)
Definition returned (c : Call) (o : Outcome A) : Z * Z :=
  (rv o, requested (request c)).

(** The size a request passes to [AllocateImpl]. *)
Definition impl_bytes (r : Request) : Z :=
  match r with
  | ReqAllocate bytes => bytes
  | ReqAllocateAligned bytes _ => rounded_up bytes
  end.

(** The [force_arena] flag and the closure a request passes. *)
Definition impl_force (r : Request) : bool :=
  match r with
  | ReqAllocate _ => false
  | ReqAllocateAligned _ huge_page_size => negb (huge_page_size =? 0)
  end.

Definition impl_func (r : Request) : Func :=
  match r with
  | ReqAllocate bytes => FAllocate bytes
  | ReqAllocateAligned bytes huge_page_size =>
      FAllocateAligned (rounded_up bytes) huge_page_size
  end.

(** Whether a request passes the assertion made before [AllocateImpl]. *)
Definition request_ok (r : Request) : bool :=
  match r with
  | ReqAllocate _ => true
  | ReqAllocateAligned bytes _ => rounded_up_ok bytes
  end.

(** The size of the allocation a closure asks the arena for. *)
Definition func_size (func : Func) : Z :=
  match func with
  | FAllocate bytes => bytes
  | FAllocateAligned rounded _ => rounded
  end.

(** Every call of the sequence finds the arena inside its inline block
    with at least the requested number of bytes unused. *)
Fixpoint within_inline_block (sys : System) (calls : list Call) : bool :=
  match calls with
  | [] => true
  | c :: calls' =>
      (0 <=? impl_bytes (request c))
      && (impl_bytes (request c) <=? arena_allocated_and_unused_ (the_arena sys))
      && Arena_IsInInlineBlock (arena_ (the_arena sys))
      && match perform sys c with
         | Some o => within_inline_block (commit sys c o) calls'
         | None => true
         end
  end.

(** No shard has been given a window. *)
Definition no_shard_window (ca : ConcurrentArena A) : Prop :=
  Forall (fun s => s = Shard_new) (data_ (shards_ ca)).

(** The slot array has its [Size()] slots, a power of two below [2^64], and
    the cached counters are those of the arena, as [Fixup] leaves them. *)
Record well_formed (ca : ConcurrentArena A) : Prop := {
  wf_shift : (size_shift_ (shards_ ca) < 64)%nat;
  wf_slots :
    length (data_ (shards_ ca)) = Z.to_nat (CoreLocal.Size (shards_ ca));
  wf_unused :
    arena_allocated_and_unused_ ca = Arena_AllocatedAndUnused (arena_ ca);
  wf_allocated :
    memory_allocated_bytes_ ca = Arena_MemoryAllocatedBytes (arena_ ca);
  wf_irregular :
    irregular_block_num_ ca = Arena_IrregularBlockNum (arena_ ca)
}.

(** A call the model can run: it passes the assertion made before
    [AllocateImpl] and the core it runs on has a slot. *)
Definition runnable (ca : ConcurrentArena A) (c : Call) : Prop :=
  request_ok (request c) = true
  /\ 0 <= core_index (call_env c) < CoreLocal.Size (shards_ ca).

(** Every shard's [free_begin_] is a multiple of the pointer size. *)
Definition shards_aligned (ca : ConcurrentArena A) : Prop :=
  Forall (fun s => free_begin_ s mod sizeof_ptr = 0) (data_ (shards_ ca)).
End Impl.

Arguments System : clear implicits.

(** The bytes of a shard's window that are still to be handed out. *)
Definition window (s : Shard) (x : Z) : Prop :=
  in_range (free_begin_ s) (allocated_and_unused_ s) x.

Section Ownership.
Context {A : Type} `{ArenaOps A} `{ArenaGhost A}.

(** The invariant behind the absence of aliasing.  [handed] are the bytes
    handed to callers so far.  What the arena may still hand out has not
    been handed out; neither has anything in a shard's window, which the
    arena has given away for good; the windows of two shards are apart;
    the capacities and the shard block size are in range. *)
Record no_alias (ca : ConcurrentArena A) (handed : Z -> Prop) : Prop := {
  na_free : forall x, arena_free (arena_ ca) x -> ~ handed x;
  na_window : forall i s x,
    data_ (shards_ ca) !! i = Some s -> window s x ->
    ~ handed x /\ ~ arena_free (arena_ ca) x;
  na_apart : forall i j s t x,
    i <> j ->
    data_ (shards_ ca) !! i = Some s -> data_ (shards_ ca) !! j = Some t ->
    window s x -> ~ window t x;
  na_sizes :
    Forall (fun s => size_t_range (allocated_and_unused_ s))
      (data_ (shards_ ca));
  na_block_size : shard_block_size_ ca <= kMaxShardBlockSize
}.
End Ownership.

(** ** Vocabulary of the further properties *)

(** Whether a call's lock operations respect the locking discipline, given
    what the call holds before them: a mutex is taken only when the call
    does not hold it, a shard's mutex (and the try-lock of the arena mutex)
    only when the call holds nothing, so that the arena mutex is only ever
    taken after a shard's; a mutex is released only when held, a shard's
    only after the arena's; and nothing is held at the end. *)
Fixpoint locks_ok (arena_held : bool) (shard_held : option Z)
    (ev : list Event) : bool :=
  match ev with
  | [] => negb arena_held && negb (bool_decide (is_Some shard_held))
  | ArenaTryLock ok :: ev' =>
      negb arena_held && negb (bool_decide (is_Some shard_held))
      && locks_ok ok shard_held ev'
  | ArenaLock :: ev' => negb arena_held && locks_ok true shard_held ev'
  | ArenaUnlock :: ev' => arena_held && locks_ok false shard_held ev'
  | ShardTryLock i ok :: ev' =>
      negb arena_held && negb (bool_decide (is_Some shard_held))
      && locks_ok arena_held (if ok then Some i else None) ev'
  | ShardLock i :: ev' =>
      negb arena_held && negb (bool_decide (is_Some shard_held))
      && locks_ok arena_held (Some i) ev'
  | ShardUnlock i :: ev' =>
      negb arena_held && bool_decide (shard_held = Some i)
      && locks_ok arena_held None ev'
  end.

(** How often a call took a shard's mutex with a blocking lock, that is,
    how often it re-picked. *)
Fixpoint repicks (ev : list Event) : nat :=
  match ev with
  | [] => 0
  | ShardLock _ :: ev' => S (repicks ev')
  | _ :: ev' => repicks ev'
  end.

(** The sum of the shards' remaining capacities. *)
Definition shards_unused {A : Type} (ca : ConcurrentArena A) : Z :=
  foldr Z.add 0 (allocated_and_unused_ <$> data_ (shards_ ca)).

Section Provenance.
Context {A : Type} `{ArenaOps A} `{ArenaGhost A}.

(** Everything handed out, everything in a shard's window and everything
    the arena may still hand out is memory the arena could hand out at the
    start, [free0]. *)
Record carved_from (ca : ConcurrentArena A) (free0 handed : Z -> Prop)
  : Prop := {
  cf_handed : forall x, handed x -> free0 x;
  cf_free : forall x, arena_free (arena_ ca) x -> free0 x;
  cf_window : forall i s x,
    data_ (shards_ ca) !! i = Some s -> window s x -> free0 x
}.
End Provenance.


(** ** An arena to run the model on *)

(** Modelled from the spec: the Underlying Arena of [memory/arena.h], whose
    source is absent, as the interface description has it: a
    single-threaded bump allocator with aligned and unaligned allocation,
    usage counters and a predicate telling whether it is still inside its
    first (inline) block.  Addresses below [frontier] outside the current
    block have been handed out or given up.  It serves to run the model;
    the properties hold for every arena that obeys [ArenaLaws]. *)
Module SimpleArena.
(** Modelled from the spec: the state of the sample arena. *)
Record t : Type := Mk {
  block_size : Z;
  cursor : Z;
  remaining : Z;
  frontier : Z;
  blocks : Z;
  irregular : Z
}.

(** Modelled from the spec: the size of the first (inline) block. *)
Definition kInlineSize : Z := 2048.

(** Modelled from the spec: the address of the inline block. *)
Definition base : Z := 4096.

(** Modelled from the spec: the next multiple of the pointer size. *)
Definition align_up (z : Z) : Z := z + (- z) mod sizeof_ptr.

(** Modelled from the spec: a new arena, inside its inline block. *)
Definition new (bs huge_page_size : Z) : t :=
  Mk bs base kInlineSize (base + kInlineSize) 0 0.

(** Modelled from the spec: bump allocation.  Serve [n] bytes at [pad]
    bytes past the cursor, or else from a new block: one of its own for a
    request above a quarter of the block size, which leaves the current
    block in use, and a regular block otherwise. *)
Definition take (a : t) (pad n : Z) : Z * t :=
  if (0 <=? n) && (pad + n <=? remaining a) then
    (cursor a + pad,
     Mk (block_size a) (cursor a + pad + n) (remaining a - pad - n)
        (frontier a) (blocks a) (irregular a))
  else
    let start := align_up (Z.max (frontier a) (cursor a + remaining a)) in
    if (block_size a / 4 <? n) || (n <? 0) then
      (start,
       Mk (block_size a) (cursor a) (remaining a) (start + Z.max n 0)
          (blocks a + 1) (irregular a + 1))
    else
      (start,
       Mk (block_size a) (start + n) (block_size a - n)
          (start + Z.max (block_size a) n) (blocks a + 1) (irregular a)).

(** Modelled from the spec: unaligned allocation. *)
Definition Allocate (a : t) (n : Z) : Z * t := take a 0 n.

(** Modelled from the spec: aligned allocation. *)
Definition AllocateAligned (a : t) (n huge_page_size : Z) : Z * t :=
  take a ((- cursor a) mod sizeof_ptr) n.

(** Modelled from the spec: the interface of the sample arena. *)
#[global] Instance ops : ArenaOps t := {|
  Arena_new := new;
  Arena_Allocate := Allocate;
  Arena_AllocateAligned := AllocateAligned;
  Arena_ApproximateMemoryUsage a :=
    wrap (kInlineSize + blocks a * block_size a - remaining a);
  Arena_MemoryAllocatedBytes a := wrap (kInlineSize + blocks a * block_size a);
  Arena_AllocatedAndUnused a := wrap (remaining a);
  Arena_IrregularBlockNum a := wrap (irregular a);
  Arena_BlockSize a := block_size a;
  Arena_IsInInlineBlock a := blocks a =? 0
|}.

(** Modelled from the spec: what the sample arena may still hand out, the
    rest of its current block and everything from [frontier] on. *)
Definition free (a : t) (x : Z) : Prop :=
  in_range (cursor a) (remaining a) x
  \/ (frontier a <= x /\ cursor a + remaining a <= x).

(** Modelled from the spec: the specification state of the sample arena. *)
#[global] Instance ghost : ArenaGhost t := {| arena_free := free |}.
End SimpleArena.

(** ** Scenarios

    A fresh instance over the sample arena on an eight-slot machine with
    block size 4096 (so [shard_block_size_] is 512), and calls to run on
    it. *)
Module Scenario.
Definition fresh : System SimpleArena.t := boot 3 4096 0.

(** The arena mutex is free and so is the shard's. *)
Definition idle : Env := MkEnv true true 0.

(** Another thread holds the arena mutex; the shard's is free. *)
Definition arena_busy : Env := MkEnv false true 0.

(** Another thread holds the shard's mutex; the caller runs on [core]. *)
Definition shard_busy (core : Z) : Env := MkEnv false false core.

Definition calls : list Call :=
  [ MkCall 0 (ReqAllocate 13) arena_busy;
    MkCall 0 (ReqAllocate 2040) arena_busy;
    MkCall 0 (ReqAllocate 16) arena_busy;
    MkCall 0 (ReqAllocate 13) arena_busy;
    MkCall 1 (ReqAllocateAligned 13 0) (shard_busy 5);
    MkCall 1 (ReqAllocateAligned 16 0) (shard_busy 3);
    MkCall 1 (ReqAllocate 24) idle ].

(** Small requests while the arena mutex is busy. *)
Definition small_calls : list Call :=
  [ MkCall 0 (ReqAllocate 13) arena_busy;
    MkCall 1 (ReqAllocateAligned 24 0) arena_busy;
    MkCall 0 (ReqAllocate 0) arena_busy;
    MkCall 2 (ReqAllocate 100) (shard_busy 6) ].

(** The arena after a large request has left 8 bytes of the inline
    block. *)
Definition nearly_full : ConcurrentArena SimpleArena.t :=
  match Allocate (the_arena fresh) 0 arena_busy 2040 with
  | Some o => after o
  | None => the_arena fresh
  end.

(** Slot 0's shard holds a window of 100 bytes at address 8192. *)
Definition hundred : ConcurrentArena SimpleArena.t :=
  set_shard (the_arena fresh) 0 (MkShard 8192 100).

(** A call that finds its shard locked while running on core 5, and
    calls that follow it. *)
Definition contended_call : Call :=
  MkCall 1 (ReqAllocateAligned 13 0) (shard_busy 5).

Definition later_calls : list Call :=
  [ MkCall 1 (ReqAllocate 24) idle;
    MkCall 0 (ReqAllocate 8) idle;
    MkCall 1 (ReqAllocate 8) (shard_busy 2) ].

(** The same as [fresh] but for the arena's block size. *)
Definition fresh_wide : System SimpleArena.t := boot 3 8192 0.
End Scenario.

(** ** Further workloads *)
Module Workload.
(** Calls of two threads that never find the arena mutex taken. *)
Definition idle_calls : list Call :=
  [ MkCall 0 (ReqAllocate 13) Scenario.idle;
    MkCall 1 (ReqAllocateAligned 40 0) Scenario.idle;
    MkCall 0 (ReqAllocate 5000) Scenario.idle;
    MkCall 1 (ReqAllocate 16) Scenario.idle ].

(** Thread 2 re-picked on core 5 of an earlier instance. *)
Definition leftover_ids : gmap nat Z := {[ 2%nat := 13 ]}.

(** A new instance in the process of that thread. *)
Definition second_instance : System SimpleArena.t :=
  boot_among leftover_ids 3 4096 0.

(** Two small requests while the arena mutex is busy, the second for a
    multiple of the pointer size. *)
Definition odd_then_even : list Call :=
  [ MkCall 0 (ReqAllocate 13) Scenario.arena_busy;
    MkCall 0 (ReqAllocate 16) Scenario.arena_busy ].
End Workload.

(** * Properties *)

(** ** Arithmetic of [size_t] and of the bit operations *)

Lemma wrap_small (z : Z) : size_t_range z -> wrap z = z.
Proof. intros Hz. apply Z.mod_small. exact Hz. Qed.

Lemma wrap_range (z : Z) : size_t_range (wrap z).
Proof. apply Z.mod_pos_bound. reflexivity. Qed.

Lemma land_low_bits (x : Z) (k : nat) :
  Z.land x (2 ^ Z.of_nat k - 1) = x mod 2 ^ Z.of_nat k.
Proof.
  rewrite <- Z.land_ones by lia.
  now rewrite Z.ones_equiv, <- Z.sub_1_r.
Qed.

Lemma lor_low_bits (x : Z) (k : nat) :
  Z.lor x (2 ^ Z.of_nat k - 1) = x - x mod 2 ^ Z.of_nat k + (2 ^ Z.of_nat k - 1).
Proof.
  pose proof (Z.add_lor_land x (2 ^ Z.of_nat k - 1)) as Hadd.
  rewrite land_low_bits in Hadd. lia.
Qed.

Lemma land_pow2_small (i : Z) (k : nat) :
  0 <= i < 2 ^ Z.of_nat k -> Z.land i (2 ^ Z.of_nat k) = 0.
Proof.
  intros Hi. apply Z.bits_inj'. intros n Hn.
  rewrite Z.land_spec, Z.bits_0, Z.pow2_bits_eqb by lia.
  destruct (Z.eqb_spec (Z.of_nat k) n) as [<- | Hne].
  - destruct (Z.eq_dec i 0) as [-> | Hnz].
    + now rewrite Z.bits_0.
    + rewrite Z.bits_above_log2; [reflexivity | lia |].
      apply Z.log2_lt_pow2; lia.
  - apply andb_false_r.
Qed.

Lemma lor_pow2_small (i : Z) (k : nat) :
  0 <= i < 2 ^ Z.of_nat k -> Z.lor i (2 ^ Z.of_nat k) = 2 ^ Z.of_nat k + i.
Proof.
  intros Hi. pose proof (Z.add_lor_land i (2 ^ Z.of_nat k)) as Hadd.
  rewrite land_pow2_small in Hadd by exact Hi. lia.
Qed.

Lemma pow2_lt_modulus (k : nat) :
  (k < 64)%nat -> 0 < 2 ^ Z.of_nat k < SizeT.modulus.
Proof.
  intros Hk. split; [apply Z.pow_pos_nonneg; lia |].
  apply Z.pow_lt_mono_r; unfold SizeT.bits; lia.
Qed.

Section SlotArray.
Context {T : Type}.
Implicit Types a : CoreLocalArray T.

Lemma Size_pow2 a :
  (size_shift_ a < 64)%nat -> CoreLocal.Size a = 2 ^ Z.of_nat (size_shift_ a).
Proof.
  intros Hk. unfold CoreLocal.Size.
  rewrite Z.shiftl_1_l. apply wrap_small.
  pose proof (pow2_lt_modulus _ Hk). unfold SizeT.in_range. lia.
Qed.

Lemma Size_big_shift a : (64 <= size_shift_ a)%nat -> CoreLocal.Size a = 0.
Proof.
  intros Hk. unfold CoreLocal.Size, wrap, SizeT.modulus, SizeT.bits.
  rewrite Z.shiftl_1_l.
  replace (Z.of_nat (size_shift_ a)) with (64 + (Z.of_nat (size_shift_ a) - 64)) by lia.
  rewrite Z.pow_add_r by lia. rewrite Z.mul_comm. apply Z.mod_mul. lia.
Qed.

Lemma AccessAtCore_Some a i s :
  CoreLocal.AccessAtCore a i = Some s ->
  0 <= i < CoreLocal.Size a /\ data_ a !! Z.to_nat i = Some s.
Proof.
  unfold CoreLocal.AccessAtCore.
  destruct (Z.leb_spec 0 i), (Z.ltb_spec i (CoreLocal.Size a)); simpl;
    intros Hs; try discriminate. auto.
Qed.

Lemma AccessAtCore_shift a i s :
  CoreLocal.AccessAtCore a i = Some s -> (size_shift_ a < 64)%nat.
Proof.
  intros Hs. apply AccessAtCore_Some in Hs as [Hi _].
  destruct (Nat.lt_ge_cases (size_shift_ a) 64) as [Hlt | Hge]; [exact Hlt |].
  rewrite (Size_big_shift _ Hge) in Hi. lia.
Qed.

Lemma Size_store a i s : CoreLocal.Size (CoreLocal.store a i s) = CoreLocal.Size a.
Proof. reflexivity. Qed.

Lemma AccessAtCore_store_eq a i s s' :
  CoreLocal.AccessAtCore a i = Some s ->
  CoreLocal.AccessAtCore (CoreLocal.store a i s') i = Some s'.
Proof.
  intros Hs. apply AccessAtCore_Some in Hs as [Hi Hs].
  unfold CoreLocal.AccessAtCore. rewrite Size_store.
  rewrite (proj2 (Z.leb_le _ _) (proj1 Hi)), (proj2 (Z.ltb_lt _ _) (proj2 Hi)).
  simpl. apply list_lookup_insert_eq. eapply lookup_lt_Some, Hs.
Qed.

Lemma AccessAtCore_store_ne a i j s s' :
  CoreLocal.AccessAtCore a i = Some s -> j <> i ->
  CoreLocal.AccessAtCore (CoreLocal.store a i s') j = CoreLocal.AccessAtCore a j.
Proof.
  intros Hs Hne. apply AccessAtCore_Some in Hs as [Hi Hs].
  unfold CoreLocal.AccessAtCore. rewrite Size_store.
  destruct (Z.leb_spec 0 j); simpl; [| reflexivity].
  destruct (Z.ltb_spec j (CoreLocal.Size a)); simpl; [| reflexivity].
  apply list_lookup_insert_ne. lia.
Qed.
End SlotArray.

(** ** Rounding up to a multiple of the pointer size *)

Lemma rounded_up_exact (bytes : Z) :
  1 <= bytes <= SizeT.max - (sizeof_ptr - 1) ->
  rounded_up bytes = bytes - 1 - (bytes - 1) mod sizeof_ptr + sizeof_ptr.
Proof.
  unfold rounded_up, SizeT.max, SizeT.modulus, SizeT.bits, sizeof_ptr.
  intros Hb.
  rewrite (wrap_small (bytes - 1)), (wrap_small (8 - 1))
    by (unfold SizeT.in_range, SizeT.modulus, SizeT.bits; lia).
  change (8 - 1) with (2 ^ Z.of_nat 3 - 1). rewrite lor_low_bits.
  change (2 ^ Z.of_nat 3) with 8.
  pose proof (Z.mod_pos_bound (bytes - 1) 8 eq_refl).
  rewrite wrap_small by (unfold SizeT.in_range, SizeT.modulus, SizeT.bits; lia).
  lia.
Qed.

Lemma rounded_up_multiple (bytes : Z) :
  1 <= bytes <= SizeT.max - (sizeof_ptr - 1) ->
  rounded_up bytes mod sizeof_ptr = 0.
Proof.
  intros Hb. rewrite (rounded_up_exact _ Hb). unfold sizeof_ptr.
  rewrite Zdiv.Zplus_mod, Z.mod_same, Z.add_0_r, Z.mod_mod by lia.
  rewrite Zdiv.Zminus_mod, Z.mod_mod, Z.sub_diag by lia. reflexivity.
Qed.

Lemma rounded_up_ok_true (bytes : Z) :
  1 <= bytes <= SizeT.max - sizeof_ptr -> rounded_up_ok bytes = true.
Proof.
  intros Hb.
  assert (1 <= bytes <= SizeT.max - (sizeof_ptr - 1)) as Hb'
    by (unfold sizeof_ptr in *; lia).
  unfold rounded_up_ok. rewrite (rounded_up_multiple _ Hb').
  rewrite (rounded_up_exact _ Hb').
  rewrite (wrap_small (bytes + sizeof_ptr)).
  2:{ revert Hb. unfold SizeT.in_range, SizeT.max, sizeof_ptr. lia. }
  pose proof (Z.mod_pos_bound (bytes - 1) sizeof_ptr eq_refl).
  rewrite !andb_true_iff, Z.leb_le, Z.ltb_lt, Z.eqb_eq.
  unfold sizeof_ptr in *. lia.
Qed.

(** Whatever the request, a call that passes the assertion of
    [AllocateAligned] asks [AllocateImpl] for a multiple of the pointer size
    that covers the request. *)
Lemma rounded_up_ok_spec (bytes : Z) :
  rounded_up_ok bytes = true ->
  bytes <= rounded_up bytes /\ rounded_up bytes mod sizeof_ptr = 0
  /\ size_t_range (rounded_up bytes).
Proof.
  unfold rounded_up_ok. rewrite !andb_true_iff, Z.leb_le, Z.eqb_eq.
  intros [[Hle _] Hmod]. repeat split; try assumption;
    apply (wrap_range _).
Qed.

(** ** The sample arena obeys the laws *)

Lemma align_up_aligned (z : Z) : SimpleArena.align_up z mod sizeof_ptr = 0.
Proof.
  unfold SimpleArena.align_up, sizeof_ptr.
  rewrite Zdiv.Zplus_mod_idemp_r, Z.add_opp_diag_r. reflexivity.
Qed.

Lemma align_up_ge (z : Z) : z <= SimpleArena.align_up z.
Proof.
  unfold SimpleArena.align_up.
  pose proof (Z.mod_pos_bound (- z) sizeof_ptr eq_refl). lia.
Qed.

Lemma SimpleArena_take_fresh (a : SimpleArena.t) (pad n p : Z) (a' : SimpleArena.t) :
  0 <= pad ->
  SimpleArena.take a pad n = (p, a') ->
  (forall x, in_range p n x -> SimpleArena.free a x) /\
  (forall x, SimpleArena.free a' x -> SimpleArena.free a x /\ ~ in_range p n x).
Proof.
  intros Hpad. unfold SimpleArena.take.
  pose proof (align_up_ge (Z.max (SimpleArena.frontier a)
                                  (SimpleArena.cursor a + SimpleArena.remaining a))) as Hup.
  revert Hup.
  generalize (SimpleArena.align_up
                (Z.max (SimpleArena.frontier a)
                       (SimpleArena.cursor a + SimpleArena.remaining a))).
  intros start Hup.
  destruct (Z.leb_spec 0 n); simpl;
    [destruct (Z.leb_spec (pad + n) (SimpleArena.remaining a)); simpl |].
  - intros [= <- <-]. unfold SimpleArena.free, in_range; simpl.
    split; intros x; lia.
  - destruct (Z.ltb_spec (SimpleArena.block_size a / 4) n),
      (Z.ltb_spec n 0); simpl; try lia;
      intros [= <- <-]; unfold SimpleArena.free, in_range; simpl;
      split; intros x; lia.
  - rewrite orb_true_intro
      by (right; apply Z.ltb_lt; assumption).
    intros [= <- <-]. unfold SimpleArena.free, in_range; simpl.
    split; intros x; lia.
Qed.

Lemma SimpleArena_laws : ArenaLaws SimpleArena.t.
Proof.
  split.
  - intros a n p a'. apply SimpleArena_take_fresh. lia.
  - intros a n h p a'. apply SimpleArena_take_fresh.
    apply Z.mod_pos_bound. reflexivity.
  - intros a n h. simpl. unfold SimpleArena.AllocateAligned, SimpleArena.take.
    destruct (_ && _); simpl.
    + unfold sizeof_ptr.
      rewrite Zdiv.Zplus_mod_idemp_r, Z.add_opp_diag_r. reflexivity.
    + destruct (_ || _); simpl; apply align_up_aligned.
  - intros a. apply wrap_range.
Qed.

#[global] Existing Instance SimpleArena_laws.

(** ** The function and the relation agree *)

Section Routing.
Context {A : Type} `{ArenaOps A}.
Implicit Types (ca : ConcurrentArena A) (o : Outcome A).

Lemma Serves_AllocateImpl ca tls env bytes force func o :
  Serves ca tls env bytes force func o ->
  AllocateImpl ca tls env bytes force func = Some o.
Proof.
  unfold AllocateImpl.
  destruct 1 as [ev0 p a Hd Hf
                | ev0 i cpu ev1 s p a Hd Hl Hs Hlt Hex Hle Hin Hf
                | ev0 i cpu ev1 s p a q s' Hd Hl Hs Hlt Hex Hno Hal Hcv
                | ev0 i cpu ev1 s q s' Hd Hl Hs Hge Hcv];
    rewrite Hd; simpl.
  - now rewrite Hf.
  - rewrite Hl; simpl. rewrite Hs; simpl.
    rewrite (proj2 (Z.ltb_lt _ _) Hlt), Hex, Z.eqb_refl; simpl.
    rewrite <- Hex, (proj2 (Z.leb_le _ _) Hle), Hin; simpl.
    now rewrite Hf.
  - rewrite Hl; simpl. rewrite Hs; simpl.
    rewrite (proj2 (Z.ltb_lt _ _) Hlt), Hex, Z.eqb_refl; simpl.
    rewrite <- Hex.
    destruct (Z.leb_spec bytes (arena_allocated_and_unused_ ca)),
      (Arena_IsInInlineBlock (arena_ ca)); simpl;
      try (exfalso; apply Hno; split; [assumption | reflexivity]);
      now rewrite Hal, Hcv.
  - rewrite Hl; simpl. rewrite Hs; simpl.
    rewrite (proj2 (Z.ltb_ge _ _) Hge). now rewrite Hcv.
Qed.

Lemma AllocateImpl_Serves ca tls env bytes force func o :
  AllocateImpl ca tls env bytes force func = Some o ->
  Serves ca tls env bytes force func o.
Proof.
  unfold AllocateImpl.
  destruct (goes_direct ca tls env bytes force) as [[[] ev0] |] eqn:Hd;
    simpl; [| | discriminate].
  - destruct (call_func func (arena_ ca)) as [p a] eqn:Hf.
    intros [= <-]. now apply Serves_direct.
  - destruct (lock_shard ca tls env) as [[[i cpu] ev1] |] eqn:Hl;
      simpl; [| discriminate].
    destruct (CoreLocal.AccessAtCore (shards_ ca) i) as [s |] eqn:Hs;
      simpl; [| discriminate].
    destruct (Z.ltb_spec (allocated_and_unused_ s) bytes) as [Hlt | Hge].
    + destruct (Z.eqb_spec (arena_allocated_and_unused_ ca)
                  (Arena_AllocatedAndUnused (arena_ ca))) as [Hex | Hne];
        simpl; [| discriminate].
      destruct (Z.leb_spec bytes (arena_allocated_and_unused_ ca)) as [Hle | Hgt];
        simpl.
      * destruct (Arena_IsInInlineBlock (arena_ ca)) eqn:Hin.
        -- destruct (call_func func (arena_ ca)) as [p a] eqn:Hf.
           intros [= <-]. eapply Serves_inline; eauto.
        -- destruct (Arena_AllocateAligned _ _ _) as [p a] eqn:Hal.
           destruct (carve _ _ _) as [q s'] eqn:Hcv.
           intros [= <-]. eapply Serves_reload; eauto.
           intros [_ Hfalse]. congruence.
      * destruct (Arena_AllocateAligned _ _ _) as [p a] eqn:Hal.
        destruct (carve _ _ _) as [q s'] eqn:Hcv.
        intros [= <-]. eapply Serves_reload; eauto.
        intros [Hle _]. lia.
    + destruct (carve _ _ _) as [q s'] eqn:Hcv.
      intros [= <-]. eapply Serves_shard; eauto.
Qed.

(** What the first condition of [AllocateImpl] decides. *)
Lemma goes_direct_spec ca tls env bytes force direct ev0 :
  goes_direct ca tls env bytes force = Some (direct, ev0) ->
  (shard_block_size_ ca / 4 < bytes /\ direct = true /\ ev0 = [])
  \/ (bytes <= shard_block_size_ ca / 4 /\ force = true
      /\ direct = true /\ ev0 = [])
  \/ (bytes <= shard_block_size_ ca / 4 /\ force = false /\ tls <> 0
      /\ direct = false /\ ev0 = [])
  \/ (bytes <= shard_block_size_ ca / 4 /\ force = false /\ tls = 0
      /\ exists s0, CoreLocal.AccessAtCore (shards_ ca) 0 = Some s0
         /\ ((allocated_and_unused_ s0 <> 0 /\ direct = false /\ ev0 = [])
             \/ (allocated_and_unused_ s0 = 0
                 /\ direct = arena_try_lock env
                 /\ ev0 = [ArenaTryLock (arena_try_lock env)]))).
Proof.
  unfold goes_direct.
  destruct (Z.ltb_spec (shard_block_size_ ca / 4) bytes) as [Hbig | Hsmall].
  { intros [= <- <-]. auto. }
  destruct force.
  { intros [= <- <-]. right; left. auto. }
  destruct (Z.eqb_spec tls 0) as [-> | Hne]; simpl.
  2:{ intros [= <- <-]. right; right; left. auto. }
  destruct (CoreLocal.AccessAtCore (shards_ ca) 0) as [s0 |]; simpl;
    [| discriminate].
  destruct (Z.eqb_spec (allocated_and_unused_ s0) 0) as [Hz | Hnz]; simpl;
    intros [= <- <-]; right; right; right;
    repeat split; try assumption; exists s0; split; auto.
Qed.

Lemma Repick_spec ca env j cpu :
  Repick ca env = Some (j, cpu) ->
  j = core_index env
  /\ cpu = Z.lor (core_index env) (CoreLocal.Size (shards_ ca))
  /\ exists s, CoreLocal.AccessAtCore (shards_ ca) (core_index env) = Some s.
Proof.
  unfold Repick, CoreLocal.AccessElementAndIndex.
  destruct (CoreLocal.AccessAtCore (shards_ ca) (core_index env)) as [s |];
    simpl; [| discriminate].
  intros [= <- <-]. eauto.
Qed.

Lemma lock_shard_spec ca tls env i cpu ev1 :
  lock_shard ca tls env = Some (i, cpu, ev1) ->
  (shard_try_lock env = true /\ i = shard_of ca tls /\ cpu = tls
   /\ ev1 = [ShardTryLock i true])
  \/ (shard_try_lock env = false /\ Repick ca env = Some (i, cpu)
      /\ ev1 = [ShardTryLock (shard_of ca tls) false; ShardLock i]).
Proof.
  unfold lock_shard.
  destruct (CoreLocal.AccessAtCore (shards_ ca) (shard_of ca tls));
    simpl; [| discriminate].
  destruct (shard_try_lock env).
  - intros [= <- <- <-]. auto.
  - destruct (Repick ca env) as [[j c] |]; simpl; [| discriminate].
    intros [= <- <- <-]. auto.
Qed.
End Routing.

(** ** Routing of a request *)

Section RoutingClaims.
Context {A : Type} `{ArenaOps A}.
Implicit Types (ca : ConcurrentArena A) (o : Outcome A).

Lemma lock_shard_head ca tls env i cpu ev1 :
  lock_shard ca tls env = Some (i, cpu, ev1) ->
  exists j ok rest, ev1 = ShardTryLock j ok :: rest.
Proof.
  intros Hl. apply lock_shard_spec in Hl as [(_ & _ & _ & ->) | (_ & _ & ->)];
    eauto.
Qed.

Local Ltac shard_case Hdir Hprobe Hev0 i :=
  split; [split; [discriminate | intros Hc; apply Hdir in Hc; discriminate] |];
  split;
  [| split; [discriminate |];
     intros _; exists i; eexists;
     split; [eauto |];
     do 2 eexists;
     destruct Hev0 as [-> | ->]; simpl;
     first [left; reflexivity | right; reflexivity]];
  destruct Hev0 as [-> | ->]; simpl;
  [ split; [intros (? & [=]) | intros Hp; apply Hprobe in Hp as (? & [=])]
  | split; [intros _; apply Hprobe; eauto | eauto] ].

(** C2.  A completed request went to the underlying arena directly
    exactly when [bytes > shard_block_size_ / 4], or [force_arena] is set,
    or the caller's [tls_cpuid] is still 0, slot 0's shard is empty and the
    try-lock of the arena mutex succeeded.  The conditions are evaluated in
    that order: the try-lock is attempted, as the first lock operation of
    the call, only when the request is small, not forced, the id is 0 and
    slot 0 is empty.  On the direct path the arena mutex is held (by the
    successful try-lock or else by a blocking lock), [func] allocates from
    the arena, the cached counters are refreshed and the mutex released;
    a large or forced request always completes that way.  Every other
    completed request took a shard's lock first. *)
Theorem direct_path_exactly_when ca tls env bytes force func :
  (shard_block_size_ ca / 4 < bytes \/ force = true ->
   exists o, AllocateImpl ca tls env bytes force func = Some o
             /\ path o = DirectPath)
  /\ forall o, AllocateImpl ca tls env bytes force func = Some o ->
     (path o = DirectPath <->
        shard_block_size_ ca / 4 < bytes \/ force = true
        \/ (tls = 0 /\ shard0_empty ca /\ arena_try_lock env = true))
     /\ ((exists ok, head (events o) = Some (ArenaTryLock ok)) <->
           bytes <= shard_block_size_ ca / 4 /\ force = false
           /\ tls = 0 /\ shard0_empty ca)
     /\ (path o = DirectPath ->
           rv o = (call_func func (arena_ ca)).1
           /\ after o = Fixup (set_arena ca (call_func func (arena_ ca)).2)
           /\ tls_after o = tls
           /\ (events o = [ArenaLock; ArenaUnlock]
               \/ events o = [ArenaTryLock true; ArenaUnlock]))
     /\ (path o <> DirectPath ->
           exists i rest,
             (path o = InlineBlockPath i \/ exists r, path o = ShardPath i r)
             /\ (exists j ok,
                   events o = ShardTryLock j ok :: rest
                   \/ events o = ArenaTryLock false :: ShardTryLock j ok :: rest)).
Proof.
  split.
  { intros Hbig.
    assert (goes_direct ca tls env bytes force = Some (true, [])) as Hd.
    { unfold goes_direct.
      destruct (Z.ltb_spec (shard_block_size_ ca / 4) bytes); [reflexivity |].
      destruct Hbig as [Hbig | ->]; [lia | reflexivity]. }
    destruct (call_func func (arena_ ca)) as [p a] eqn:Hf.
    eexists. split; [apply Serves_AllocateImpl; eapply Serves_direct; eauto |].
    reflexivity. }
  intros o Ho. apply AllocateImpl_Serves in Ho.
  assert (forall direct ev0,
    goes_direct ca tls env bytes force = Some (direct, ev0) ->
    (direct = true <->
       shard_block_size_ ca / 4 < bytes \/ force = true
       \/ (tls = 0 /\ shard0_empty ca /\ arena_try_lock env = true))
    /\ ((exists ok, ev0 = [ArenaTryLock ok]) <->
          bytes <= shard_block_size_ ca / 4 /\ force = false
          /\ tls = 0 /\ shard0_empty ca)
    /\ (ev0 = [] \/ ev0 = [ArenaTryLock direct])) as Hcond.
  { intros direct ev0 Hd. unfold shard0_empty.
    apply goes_direct_spec in Hd
      as [(Hb & -> & ->)
         | [(Hb & -> & -> & ->)
           | [(Hb & -> & Hne & -> & ->)
             | (Hb & -> & -> & s0 & Hs0 & [(Hnz & -> & ->) | (Hz & -> & ->)])]]].
    - split; [split; auto |].
      split; [split; [intros (? & [=]) | intros (? & _); lia] | auto].
    - split; [split; auto |].
      split; [split; [intros (? & [=]) | intros (_ & Hf & _); discriminate Hf]
             | auto].
    - split; [split; [discriminate |] |].
      { intros [? | [Hf | (? & _)]]; [lia | discriminate Hf | contradiction]. }
      split; [split; [intros (? & [=]) | intros (_ & _ & ? & _); contradiction]
             | auto].
    - split; [split; [discriminate |] |].
      { intros [? | [Hf | (_ & (s & Hs & Hz) & _)]];
          [lia | discriminate Hf |].
        rewrite Hs0 in Hs. injection Hs as <-. contradiction. }
      split; [split; [intros (? & [=]) |] | auto].
      intros (_ & _ & _ & (s & Hs & Hz)).
      rewrite Hs0 in Hs. injection Hs as <-. contradiction.
    - split; [split |].
      { intros Ht. right; right. repeat split; eauto. }
      { intros [? | [Hf | (_ & _ & ?)]];
          [lia | discriminate Hf | assumption]. }
      split; [split; [intros _; repeat split; eauto | eauto] | auto]. }
  destruct Ho as [ev0 p a Hd Hf
                | ev0 i cpu ev1 s p a Hd Hl Hs Hlt Hex Hle Hin Hf
                | ev0 i cpu ev1 s p a q s' Hd Hl Hs Hlt Hex Hno Hal Hcv
                | ev0 i cpu ev1 s q s' Hd Hl Hs Hge Hcv];
    destruct (Hcond _ _ Hd) as (Hdir & Hprobe & Hev0); simpl;
    try (destruct (lock_shard_head _ _ _ _ _ _ Hl) as (j & ok & rest & ->)).
  - rewrite Hf; simpl. unfold direct_events.
    split; [split; [intros _; apply Hdir; reflexivity | reflexivity] |].
    split; [| split; [| congruence]].
    + destruct Hev0 as [-> | ->]; simpl.
      * split; [intros (? & [=]) | intros Hp; apply Hprobe in Hp as (? & [=])].
      * split; [intros _; apply Hprobe; eauto | eauto].
    + intros _. destruct Hev0 as [-> | ->]; simpl; auto.
  - shard_case Hdir Hprobe Hev0 i.
  - shard_case Hdir Hprobe Hev0 i.
  - shard_case Hdir Hprobe Hev0 i.
Qed.
End RoutingClaims.

(** ** Carving from a shard's window *)

Lemma carve_spec (s : Shard) (avail bytes : Z) :
  0 <= bytes <= avail -> size_t_range avail ->
  carve s avail bytes =
    if bytes mod sizeof_ptr =? 0
    then (free_begin_ s, MkShard (free_begin_ s + bytes) (avail - bytes))
    else (free_begin_ s + avail - bytes, MkShard (free_begin_ s) (avail - bytes)).
Proof.
  intros Hb Ha. unfold carve; simpl.
  rewrite wrap_small by (unfold SizeT.in_range in *; lia). reflexivity.
Qed.

Section ShardClaims.
Context {A : Type} `{ArenaOps A}.
Implicit Types (ca : ConcurrentArena A) (o : Outcome A).

(** C3.  On the shard path, when the locked shard's remaining capacity
    [avail] covers [bytes], the call completes without touching the arena
    or any other shard: for [bytes] a multiple of the pointer size it
    returns the shard's [free_begin_] and advances it by [bytes], otherwise
    it returns [free_begin_ + avail - bytes] and leaves [free_begin_]
    alone; the capacity becomes [avail - bytes] either way.  A 13-byte
    request against a window of 100 bytes returns [free_begin_ + 87] and
    leaves capacity 87 with [free_begin_] unchanged. *)
Theorem carve_from_shard ca tls env bytes force func ev0 i cpu ev1 s :
  0 <= bytes ->
  size_t_range (allocated_and_unused_ s) ->
  goes_direct ca tls env bytes force = Some (false, ev0) ->
  lock_shard ca tls env = Some (i, cpu, ev1) ->
  CoreLocal.AccessAtCore (shards_ ca) i = Some s ->
  bytes <= allocated_and_unused_ s ->
  (exists o s',
     AllocateImpl ca tls env bytes force func = Some o
     /\ path o = ShardPath i false
     /\ CoreLocal.AccessAtCore (shards_ (after o)) i = Some s'
     /\ allocated_and_unused_ s' = allocated_and_unused_ s - bytes
     /\ (bytes mod sizeof_ptr = 0 ->
           rv o = free_begin_ s /\ free_begin_ s' = free_begin_ s + bytes)
     /\ (bytes mod sizeof_ptr <> 0 ->
           rv o = free_begin_ s + allocated_and_unused_ s - bytes
           /\ free_begin_ s' = free_begin_ s)
     /\ arena_ (after o) = arena_ ca
     /\ forall j, j <> i ->
          CoreLocal.AccessAtCore (shards_ (after o)) j
          = CoreLocal.AccessAtCore (shards_ ca) j)
  /\ forall free_begin,
       carve (MkShard free_begin 100) 100 13
       = (free_begin + 87, MkShard free_begin 87).
Proof.
  intros Hb Hr Hd Hl Hs Hge. split.
  2:{ intros free_begin. rewrite carve_spec by (compute; intuition congruence).
      simpl. f_equal. lia. }
  pose proof (carve_spec s (allocated_and_unused_ s) bytes
                (conj Hb Hge) Hr) as Hcv.
  destruct (carve s (allocated_and_unused_ s) bytes) as [q s'] eqn:Hcarve.
  exists (MkOutcome q (set_shard ca i s') cpu (ShardPath i false)
            (ev0 ++ ev1 ++ [ShardUnlock i])), s'.
  split; [apply Serves_AllocateImpl; eapply Serves_shard; eauto |].
  simpl. split; [reflexivity |].
  split; [eapply AccessAtCore_store_eq; eauto |].
  destruct (Z.eqb_spec (bytes mod sizeof_ptr) 0) as [Hz | Hnz];
    injection Hcv as -> ->; simpl;
    repeat split; try lia; try contradiction;
    intros j Hj; eapply AccessAtCore_store_ne; eauto.
Qed.
End ShardClaims.

(** ** Reloading a shard *)

Section ReloadClaims.
Context {A : Type} `{ArenaLaws A}.
Implicit Types (ca : ConcurrentArena A) (o : Outcome A).

Lemma goes_direct_small ca tls env bytes force ev0 :
  goes_direct ca tls env bytes force = Some (false, ev0) ->
  bytes <= shard_block_size_ ca / 4.
Proof.
  intros Hd. apply goes_direct_spec in Hd.
  destruct Hd as [(_ & [=] & _) | [(_ & _ & [=] & _) | [(? & _) | (? & _)]]];
    assumption.
Qed.

Lemma reload_size_spec ca exact :
  0 <= shard_block_size_ ca <= kMaxShardBlockSize ->
  (shard_block_size_ ca / 2 <= exact < 2 * shard_block_size_ ca ->
   reload_size ca exact = exact)
  /\ (~ (shard_block_size_ ca / 2 <= exact < 2 * shard_block_size_ ca) ->
      reload_size ca exact = shard_block_size_ ca).
Proof.
  intros Hsbs. unfold reload_size.
  rewrite wrap_small
    by (revert Hsbs; unfold SizeT.in_range, kMaxShardBlockSize,
          SizeT.modulus, SizeT.bits; lia).
  destruct (Z.leb_spec (shard_block_size_ ca / 2) exact),
    (Z.ltb_spec exact (shard_block_size_ ca * 2)); simpl; split; intros;
    try reflexivity; lia.
Qed.

Lemma reload_size_bounds ca bytes :
  0 <= bytes <= shard_block_size_ ca / 4 ->
  shard_block_size_ ca <= kMaxShardBlockSize ->
  0 <= bytes <= reload_size ca (Arena_AllocatedAndUnused (arena_ ca))
  /\ size_t_range (reload_size ca (Arena_AllocatedAndUnused (arena_ ca))).
Proof.
  intros Hb Hmax.
  assert (0 <= shard_block_size_ ca <= kMaxShardBlockSize) as Hsbs.
  { split; [| exact Hmax].
    destruct (Z.le_gt_cases 0 (shard_block_size_ ca)) as [? | Hneg]; [assumption |].
    pose proof (Z.div_lt_upper_bound (shard_block_size_ ca) 4 0). lia. }
  set (exact := Arena_AllocatedAndUnused (arena_ ca)).
  destruct (reload_size_spec ca exact Hsbs) as [Hin Hout].
  pose proof (AllocatedAndUnused_range (arena_ ca)) as Hrange.
  fold exact in Hrange.
  assert (shard_block_size_ ca / 4 <= shard_block_size_ ca / 2)
    by (apply Z.div_le_compat_l; lia).
  assert (shard_block_size_ ca / 4 <= shard_block_size_ ca)
    by (apply Z.div_le_upper_bound; lia).
  destruct (Z.le_gt_cases (shard_block_size_ ca / 2) exact) as [Hlo | Hlo];
    [destruct (Z.lt_ge_cases exact (2 * shard_block_size_ ca)) as [Hhi | Hhi] |].
  - rewrite Hin by lia. unfold SizeT.in_range in *. lia.
  - rewrite Hout by lia. revert Hsbs.
    unfold SizeT.in_range, kMaxShardBlockSize, SizeT.modulus, SizeT.bits. lia.
  - rewrite Hout by lia. revert Hsbs.
    unfold SizeT.in_range, kMaxShardBlockSize, SizeT.modulus, SizeT.bits. lia.
Qed.

(** C4.  When the locked shard cannot cover the request and the inline
    block shortcut does not apply, the window requested from the arena has
    the size of the arena's cached unused amount [exact] if
    [shard_block_size_ / 2 <= exact < 2 * shard_block_size_], and
    [shard_block_size_] otherwise.  The window comes from the arena's
    aligned allocation, so it starts at a multiple of the pointer size; it
    becomes the shard's window, from which the request is carved at once;
    the cached counters are refreshed from the arena.  The call
    completes. *)
Theorem reload_window ca tls env bytes force func ev0 i cpu ev1 s :
  0 <= bytes ->
  shard_block_size_ ca <= kMaxShardBlockSize ->
  goes_direct ca tls env bytes force = Some (false, ev0) ->
  lock_shard ca tls env = Some (i, cpu, ev1) ->
  CoreLocal.AccessAtCore (shards_ ca) i = Some s ->
  allocated_and_unused_ s < bytes ->
  arena_allocated_and_unused_ ca = Arena_AllocatedAndUnused (arena_ ca) ->
  ~ (bytes <= arena_allocated_and_unused_ ca
     /\ Arena_IsInInlineBlock (arena_ ca) = true) ->
  let exact := arena_allocated_and_unused_ ca in
  exists window p a o s',
    (shard_block_size_ ca / 2 <= exact < 2 * shard_block_size_ ca ->
     window = exact)
    /\ (~ (shard_block_size_ ca / 2 <= exact < 2 * shard_block_size_ ca) ->
        window = shard_block_size_ ca)
    /\ Arena_AllocateAligned (arena_ ca) window 0 = (p, a)
    /\ p mod sizeof_ptr = 0
    /\ AllocateImpl ca tls env bytes force func = Some o
    /\ path o = ShardPath i true
    /\ arena_ (after o) = a
    /\ arena_allocated_and_unused_ (after o) = Arena_AllocatedAndUnused a
    /\ memory_allocated_bytes_ (after o) = Arena_MemoryAllocatedBytes a
    /\ irregular_block_num_ (after o) = Arena_IrregularBlockNum a
    /\ CoreLocal.AccessAtCore (shards_ (after o)) i = Some s'
    /\ allocated_and_unused_ s' = window - bytes
    /\ (bytes mod sizeof_ptr = 0 ->
          rv o = p /\ free_begin_ s' = p + bytes)
    /\ (bytes mod sizeof_ptr <> 0 ->
          rv o = p + window - bytes /\ free_begin_ s' = p)
    /\ forall j, j <> i ->
         CoreLocal.AccessAtCore (shards_ (after o)) j
         = CoreLocal.AccessAtCore (shards_ ca) j.
Proof.
  intros Hb Hmax Hd Hl Hs Hlt Hex Hno exact.
  pose proof (goes_direct_small _ _ _ _ _ _ Hd) as Hsmall.
  assert (0 <= shard_block_size_ ca <= kMaxShardBlockSize) as Hsbs.
  { split; [| exact Hmax].
    destruct (Z.le_gt_cases 0 (shard_block_size_ ca)) as [? | Hneg]; [assumption |].
    pose proof (Z.div_lt_upper_bound (shard_block_size_ ca) 4 0). lia. }
  destruct (reload_size_spec ca exact Hsbs) as [Hin Hout].
  pose proof (AllocatedAndUnused_range (arena_ ca)) as Hrange.
  rewrite <- Hex in Hrange. fold exact in Hrange.
  set (window := reload_size ca exact) in *.
  assert (0 <= bytes <= window /\ size_t_range window) as [Hbw Hwr].
  { unfold window, exact. rewrite Hex.
    apply reload_size_bounds; [lia | exact Hmax]. }
  destruct (Arena_AllocateAligned (arena_ ca) window 0) as [p a] eqn:Hal.
  pose proof (AllocateAligned_aligned (arena_ ca) window 0) as Halign.
  rewrite Hal in Halign; simpl in Halign.
  pose proof (carve_spec (MkShard p (allocated_and_unused_ s)) window bytes
                Hbw Hwr) as Hcv.
  destruct (carve (MkShard p (allocated_and_unused_ s)) window bytes)
    as [q s'] eqn:Hcarve.
  exists window, p, a,
    (MkOutcome q (set_shard (Fixup (set_arena ca a)) i s') cpu
       (ShardPath i true)
       (ev0 ++ ev1 ++ [ArenaLock; ArenaUnlock; ShardUnlock i])), s'.
  split; [exact Hin |]. split; [exact Hout |].
  split; [exact Hal |]. split; [exact Halign |].
  split; [apply Serves_AllocateImpl; eapply Serves_reload; eauto |].
  simpl. do 5 (split; [reflexivity |]).
  split; [eapply AccessAtCore_store_eq; eauto |].
  destruct (Z.eqb_spec (bytes mod sizeof_ptr) 0) as [Hz | Hnz];
    injection Hcv as -> ->; simpl;
    repeat split; try lia; try contradiction;
    intros j Hj; eapply AccessAtCore_store_ne; eauto.
Qed.
End ReloadClaims.

(** ** The inline block shortcut *)

Section InlineClaims.
Context {A : Type} `{ArenaOps A}.
Implicit Types (ca : ConcurrentArena A) (o : Outcome A) (sys : System A).

Lemma perform_spec sys c o :
  perform sys c = Some o <->
  request_ok (request c) = true
  /\ AllocateImpl (the_arena sys) (tls_of sys (caller c)) (call_env c)
       (impl_bytes (request c)) (impl_force (request c))
       (impl_func (request c)) = Some o.
Proof.
  unfold perform, Allocate, AllocateAligned.
  destruct (request c) as [bytes | bytes h]; simpl; [tauto |].
  destruct (rounded_up_ok bytes); [tauto |].
  split; [discriminate | intros [[=] _]].
Qed.

Lemma run_cons sys c calls outs sys' :
  run sys (c :: calls) = Some (outs, sys') <->
  exists o outs',
    perform sys c = Some o
    /\ run (commit sys c o) calls = Some (outs', sys')
    /\ outs = o :: outs'.
Proof.
  simpl. destruct (perform sys c) as [o |]; simpl.
  - split.
    + destruct (run (commit sys c o) calls) as [[outs' sys''] |] eqn:Hr;
        simpl; [| discriminate].
      intros [= <- <-]. exists o, outs'. auto.
    + intros (o' & outs'' & [= <-] & -> & ->). reflexivity.
  - split; [discriminate | intros (o' & outs'' & [=] & _)].
Qed.

Lemma store_same (shards : CoreLocalArray Shard) i s :
  CoreLocal.AccessAtCore shards i = Some s -> CoreLocal.store shards i s = shards.
Proof.
  intros Hs. apply AccessAtCore_Some in Hs as [_ Hs].
  destruct shards as [k data]. unfold CoreLocal.store; simpl in *.
  f_equal. apply list_insert_id. exact Hs.
Qed.

Lemma inline_step ca tls env bytes force func o :
  no_shard_window ca ->
  0 <= bytes <= arena_allocated_and_unused_ ca ->
  Arena_IsInInlineBlock (arena_ ca) = true ->
  AllocateImpl ca tls env bytes force func = Some o ->
  shards_ (after o) = shards_ ca /\ forall i, path o <> ShardPath i true.
Proof.
  intros Hnone Hb Hin Ho. apply AllocateImpl_Serves in Ho.
  destruct Ho as [ev0 p a Hd Hf
                | ev0 i cpu ev1 s p a Hd Hl Hs Hlt Hex Hle _ Hf
                | ev0 i cpu ev1 s p a q s' Hd Hl Hs Hlt Hex Hno Hal Hcv
                | ev0 i cpu ev1 s q s' Hd Hl Hs Hge Hcv]; simpl.
  - split; [reflexivity | discriminate].
  - split; [reflexivity | discriminate].
  - exfalso. apply Hno. split; [lia | exact Hin].
  - split; [| discriminate].
    assert (s = Shard_new) as ->.
    { apply AccessAtCore_Some in Hs as [_ Hs].
      unfold no_shard_window in Hnone. rewrite Forall_lookup in Hnone.
      exact (Hnone _ _ Hs). }
    simpl in Hge, Hcv. assert (bytes = 0) as -> by lia.
    injection Hcv as <- <-. apply (store_same _ _ _ Hs).
Qed.

Lemma run_within_inline_block sys calls outs sys' :
  no_shard_window (the_arena sys) ->
  within_inline_block sys calls = true ->
  run sys calls = Some (outs, sys') ->
  shards_ (the_arena sys') = shards_ (the_arena sys)
  /\ Forall (fun o => forall i, path o <> ShardPath i true) outs.
Proof.
  revert sys outs. induction calls as [| c calls IH]; intros sys outs Hnone Hin Hrun.
  - injection Hrun as <- <-. split; [reflexivity | constructor].
  - apply run_cons in Hrun as (o & outs' & Ho & Hrun & ->).
    simpl in Hin. rewrite Ho in Hin.
    rewrite !andb_true_iff, Z.leb_le, Z.leb_le in Hin.
    destruct Hin as [[[Hb0 Hb1] Hinl] Hrest].
    apply perform_spec in Ho as [_ Ho].
    destruct (inline_step _ _ _ _ _ _ _ Hnone (conj Hb0 Hb1) Hinl Ho)
      as [Hsh Hpath].
    destruct (IH (commit sys c o) outs') as [Hsh' Hall]; try assumption.
    { unfold no_shard_window. simpl. rewrite Hsh. exact Hnone. }
    split; [simpl in Hsh'; congruence | constructor; assumption].
Qed.

Lemma boot_no_shard_window shift block_size huge_page_size :
  no_shard_window (the_arena (boot shift block_size huge_page_size)).
Proof. unfold no_shard_window; simpl. apply Forall_replicate. reflexivity. Qed.

(** C5.  In a reload, if the arena's cached unused amount [exact] covers
    [bytes] and the arena is still inside its inline block, the request is
    served by [func] from the arena itself and the shards are left as they
    were.  So a fresh instance whose calls all find the arena inside its
    inline block with enough room never gives a shard a window: after any
    such sequence of calls every shard is as constructed (null
    [free_begin_], capacity zero) and no call reloaded a shard. *)
Theorem inline_block_shortcut ca tls env bytes force func ev0 i cpu ev1 s
    shift block_size huge_page_size calls outs sys' :
  (goes_direct ca tls env bytes force = Some (false, ev0) ->
   lock_shard ca tls env = Some (i, cpu, ev1) ->
   CoreLocal.AccessAtCore (shards_ ca) i = Some s ->
   allocated_and_unused_ s < bytes ->
   arena_allocated_and_unused_ ca = Arena_AllocatedAndUnused (arena_ ca) ->
   bytes <= arena_allocated_and_unused_ ca ->
   Arena_IsInInlineBlock (arena_ ca) = true ->
   exists o,
     AllocateImpl ca tls env bytes force func = Some o
     /\ path o = InlineBlockPath i
     /\ rv o = (call_func func (arena_ ca)).1
     /\ arena_ (after o) = (call_func func (arena_ ca)).2
     /\ shards_ (after o) = shards_ ca)
  /\ (within_inline_block (boot shift block_size huge_page_size) calls = true ->
      run (boot shift block_size huge_page_size) calls = Some (outs, sys') ->
      shards_ (the_arena sys') = CoreLocal.make shift Shard_new
      /\ Forall (fun s => allocated_and_unused_ s = 0)
           (data_ (shards_ (the_arena sys')))
      /\ Forall (fun o => forall j, path o <> ShardPath j true) outs).
Proof.
  split.
  - intros Hd Hl Hs Hlt Hex Hle Hin.
    destruct (call_func func (arena_ ca)) as [p a] eqn:Hf.
    eexists. split; [apply Serves_AllocateImpl; eapply Serves_inline; eauto |].
    simpl. auto.
  - intros Hin Hrun.
    destruct (run_within_inline_block _ _ _ _
                (boot_no_shard_window shift block_size huge_page_size)
                Hin Hrun) as [Hsh Hall].
    split; [exact Hsh |]. split; [| exact Hall].
    rewrite Hsh. simpl. apply Forall_replicate. reflexivity.
Qed.
End InlineClaims.

(** ** Every call completes *)

Section Completion.
Context {A : Type} `{ArenaOps A}.
Implicit Types (ca : ConcurrentArena A) (o : Outcome A) (sys : System A).

Lemma new_well_formed shift block_size huge_page_size :
  (shift < 64)%nat ->
  well_formed (ConcurrentArena_new shift block_size huge_page_size).
Proof.
  intros Hk. split; simpl; try reflexivity; [exact Hk |].
  rewrite length_replicate. unfold CoreLocal.make.
  rewrite Size_pow2 by exact Hk. cbn [size_shift_].
  apply Nat2Z.inj. rewrite Z2Nat.id by (apply Z.pow_nonneg; lia).
  apply Nat2Z.inj_pow.
Qed.

Lemma AccessAtCore_is_Some ca i :
  well_formed ca -> 0 <= i < CoreLocal.Size (shards_ ca) ->
  is_Some (CoreLocal.AccessAtCore (shards_ ca) i).
Proof.
  intros Hwf Hi. unfold CoreLocal.AccessAtCore.
  rewrite (proj2 (Z.leb_le _ _) (proj1 Hi)), (proj2 (Z.ltb_lt _ _) (proj2 Hi)).
  simpl. apply lookup_lt_is_Some_2. rewrite (wf_slots _ Hwf). lia.
Qed.

Lemma AllocateImpl_well_formed ca tls env bytes force func o :
  well_formed ca ->
  AllocateImpl ca tls env bytes force func = Some o ->
  well_formed (after o)
  /\ shard_block_size_ (after o) = shard_block_size_ ca
  /\ CoreLocal.Size (shards_ (after o)) = CoreLocal.Size (shards_ ca).
Proof.
  intros [Hk Hlen Hc1 Hc2 Hc3] Ho. apply AllocateImpl_Serves in Ho.
  destruct Ho as [ev0 p a Hd Hf
                | ev0 i cpu ev1 s p a Hd Hl Hs Hlt Hex Hle Hin Hf
                | ev0 i cpu ev1 s p a q s' Hd Hl Hs Hlt Hex Hno Hal Hcv
                | ev0 i cpu ev1 s q s' Hd Hl Hs Hge Hcv]; simpl;
    (split; [split; simpl; rewrite ?length_insert; auto | auto]).
Qed.

(** On a well-formed instance a call that runs on a core with a slot
    returns: no assertion of [AllocateImpl] fails. *)
Lemma AllocateImpl_completes ca tls env bytes force func :
  well_formed ca ->
  0 <= core_index env < CoreLocal.Size (shards_ ca) ->
  is_Some (AllocateImpl ca tls env bytes force func).
Proof.
  intros Hwf Hcore.
  pose proof (wf_shift _ Hwf) as Hk.
  pose proof (pow2_lt_modulus _ Hk) as Hpow.
  pose proof (Size_pow2 (shards_ ca) Hk) as Hsize.
  destruct (AccessAtCore_is_Some ca 0 Hwf ltac:(lia)) as [s0 Hs0].
  destruct (AccessAtCore_is_Some ca (core_index env) Hwf Hcore) as [sc Hsc].
  assert (0 <= shard_of ca tls < CoreLocal.Size (shards_ ca)) as Hidx.
  { unfold shard_of. rewrite Hsize.
    rewrite wrap_small by (unfold SizeT.in_range; lia).
    rewrite land_low_bits. apply Z.mod_pos_bound. lia. }
  destruct (AccessAtCore_is_Some ca _ Hwf Hidx) as [st Hst].
  assert (exists direct ev0,
            goes_direct ca tls env bytes force = Some (direct, ev0))
    as (direct & ev0 & Hd).
  { unfold goes_direct. rewrite Hs0. simpl.
    destruct (_ <? _); [eauto |]. destruct force; [eauto |].
    destruct (negb (tls =? 0)); [eauto |].
    destruct (negb (allocated_and_unused_ s0 =? 0)); eauto. }
  assert (exists i cpu ev1 s,
            lock_shard ca tls env = Some (i, cpu, ev1)
            /\ CoreLocal.AccessAtCore (shards_ ca) i = Some s)
    as (i & cpu & ev1 & s & Hl & Hs).
  { unfold lock_shard, Repick, CoreLocal.AccessElementAndIndex.
    rewrite Hst, Hsc. simpl. destruct (shard_try_lock env); simpl; eauto 10. }
  destruct direct.
  { destruct (call_func func (arena_ ca)) as [p a] eqn:Hf.
    eexists. apply Serves_AllocateImpl. eapply Serves_direct; eauto. }
  destruct (Z.lt_ge_cases (allocated_and_unused_ s) bytes) as [Hlt | Hge].
  2:{ destruct (carve s (allocated_and_unused_ s) bytes) as [q s'] eqn:Hcv.
      eexists. apply Serves_AllocateImpl. eapply Serves_shard; eauto. }
  destruct (Z.le_gt_cases bytes (arena_allocated_and_unused_ ca)) as [Hle | Hgt];
    [destruct (Arena_IsInInlineBlock (arena_ ca)) eqn:Hin |].
  - destruct (call_func func (arena_ ca)) as [p a] eqn:Hf.
    eexists. apply Serves_AllocateImpl.
    eapply Serves_inline; eauto using wf_unused.
  - destruct (Arena_AllocateAligned (arena_ ca)
                (reload_size ca (arena_allocated_and_unused_ ca)) 0)
      as [p a] eqn:Hal.
    destruct (carve (MkShard p (allocated_and_unused_ s))
                (reload_size ca (arena_allocated_and_unused_ ca)) bytes)
      as [q s'] eqn:Hcv.
    eexists. apply Serves_AllocateImpl.
    eapply Serves_reload; eauto using wf_unused.
    intros [_ Hfalse]. congruence.
  - destruct (Arena_AllocateAligned (arena_ ca)
                (reload_size ca (arena_allocated_and_unused_ ca)) 0)
      as [p a] eqn:Hal.
    destruct (carve (MkShard p (allocated_and_unused_ s))
                (reload_size ca (arena_allocated_and_unused_ ca)) bytes)
      as [q s'] eqn:Hcv.
    eexists. apply Serves_AllocateImpl.
    eapply Serves_reload; eauto using wf_unused.
    intros [Hle _]. lia.
Qed.

Lemma perform_completes sys c :
  well_formed (the_arena sys) -> runnable (the_arena sys) c ->
  exists o, perform sys c = Some o
            /\ well_formed (the_arena (commit sys c o))
            /\ CoreLocal.Size (shards_ (the_arena (commit sys c o)))
               = CoreLocal.Size (shards_ (the_arena sys)).
Proof.
  intros Hwf [Hok Hcore].
  destruct (AllocateImpl_completes (the_arena sys) (tls_of sys (caller c))
              (call_env c) (impl_bytes (request c)) (impl_force (request c))
              (impl_func (request c)) Hwf Hcore) as [o Ho].
  exists o. split; [apply perform_spec; auto |].
  destruct (AllocateImpl_well_formed _ _ _ _ _ _ _ Hwf Ho) as (Hwf' & _ & Hsz).
  auto.
Qed.

(** A run of runnable calls on a well-formed instance completes. *)
Lemma run_completes calls :
  forall sys,
    well_formed (the_arena sys) ->
    Forall (runnable (the_arena sys)) calls ->
    exists outs sys',
      run sys calls = Some (outs, sys') /\ well_formed (the_arena sys').
Proof.
  induction calls as [| c calls IH]; intros sys Hwf Hall.
  - exists [], sys. auto.
  - apply Forall_cons in Hall as [Hc Hall].
    destruct (perform_completes sys c Hwf Hc) as (o & Ho & Hwf' & Hsz).
    destruct (IH (commit sys c o) Hwf') as (outs & sys' & Hrun & Hwf'').
    { eapply Forall_impl; [exact Hall |].
      intros c' [Hok Hcore]. split; [exact Hok |]. rewrite Hsz. exact Hcore. }
    exists (o :: outs), sys'. split; [| exact Hwf''].
    apply run_cons. eauto.
Qed.
End Completion.

(** ** Word alignment *)

Section AlignmentClaims.
Context {A : Type} `{ArenaLaws A}.
Implicit Types (ca : ConcurrentArena A) (o : Outcome A) (sys : System A).

Lemma carve_aligned (s : Shard) (avail bytes q : Z) (s' : Shard) :
  free_begin_ s mod sizeof_ptr = 0 ->
  carve s avail bytes = (q, s') ->
  free_begin_ s' mod sizeof_ptr = 0
  /\ (bytes mod sizeof_ptr = 0 -> q mod sizeof_ptr = 0).
Proof.
  intros Hs. unfold carve; simpl.
  destruct (Z.eqb_spec (bytes mod sizeof_ptr) 0) as [Hz | Hnz];
    intros [= <- <-]; simpl; split; auto; try contradiction.
  rewrite Zdiv.Zplus_mod, Hs, Hz. reflexivity.
Qed.

Lemma shards_aligned_store ca i s :
  shards_aligned ca -> free_begin_ s mod sizeof_ptr = 0 ->
  shards_aligned (set_shard ca i s).
Proof. intros Hall Hs. apply Forall_insert; assumption. Qed.

Lemma aligned_step ca tls env bytes force func o :
  shards_aligned ca ->
  AllocateImpl ca tls env bytes force func = Some o ->
  shards_aligned (after o)
  /\ ((exists i r, path o = ShardPath i r) ->
      bytes mod sizeof_ptr = 0 -> rv o mod sizeof_ptr = 0)
  /\ ((exists r h, func = FAllocateAligned r h) ->
      bytes mod sizeof_ptr = 0 -> rv o mod sizeof_ptr = 0).
Proof.
  intros Hall Ho. apply AllocateImpl_Serves in Ho.
  assert (forall p a, (exists r h, func = FAllocateAligned r h) ->
                      call_func func (arena_ ca) = (p, a) ->
                      p mod sizeof_ptr = 0) as Hfunc.
  { intros p a (r & h & ->) Hf. simpl in Hf.
    pose proof (AllocateAligned_aligned (arena_ ca) r h) as Hal.
    now rewrite Hf in Hal. }
  destruct Ho as [ev0 p a Hd Hf
                | ev0 i cpu ev1 s p a Hd Hl Hs Hlt Hex Hle Hin Hf
                | ev0 i cpu ev1 s p a q s' Hd Hl Hs Hlt Hex Hno Hal Hcv
                | ev0 i cpu ev1 s q s' Hd Hl Hs Hge Hcv]; simpl.
  - split; [exact Hall |].
    split; [intros (i & r & [=]) | intros Hfa _; eapply Hfunc; eauto].
  - split; [exact Hall |].
    split; [intros (j & r & [=]) | intros Hfa _; eapply Hfunc; eauto].
  - pose proof (AllocateAligned_aligned (arena_ ca)
                  (reload_size ca (arena_allocated_and_unused_ ca)) 0) as Hp.
    rewrite Hal in Hp; simpl in Hp.
    destruct (carve_aligned (MkShard p (allocated_and_unused_ s))
                _ _ _ _ Hp Hcv) as [Hs' Hq].
    split; [apply shards_aligned_store; assumption |].
    split; intros _; exact Hq.
  - assert (free_begin_ s mod sizeof_ptr = 0) as Hfb.
    { apply AccessAtCore_Some in Hs as [_ Hs].
      unfold shards_aligned in Hall. rewrite Forall_lookup in Hall.
      exact (Hall _ _ Hs). }
    destruct (carve_aligned _ _ _ _ _ Hfb Hcv) as [Hs' Hq].
    split; [apply shards_aligned_store; assumption |].
    split; intros _; exact Hq.
Qed.

Lemma boot_shards_aligned shift block_size huge_page_size :
  shards_aligned (the_arena (boot shift block_size huge_page_size)).
Proof. unfold shards_aligned; simpl. apply Forall_replicate. reflexivity. Qed.

(** An invariant of the system holds before every call of a run. *)
Lemma run_invariant (I : System A -> Prop) :
  (forall sys c o, I sys -> perform sys c = Some o -> I (commit sys c o)) ->
  forall calls sys outs sys',
    I sys -> run sys calls = Some (outs, sys') ->
    I sys'
    /\ forall k c o, calls !! k = Some c -> outs !! k = Some o ->
         exists sysk, I sysk /\ perform sysk c = Some o.
Proof.
  intros Hstep. induction calls as [| c calls IH]; intros sys outs sys' HI Hrun.
  - injection Hrun as <- <-. split; [exact HI |]. intros k c o [=].
  - apply run_cons in Hrun as (o & outs' & Ho & Hrun & ->).
    destruct (IH _ _ _ (Hstep _ _ _ HI Ho) Hrun) as [HI' Hk].
    split; [exact HI' |].
    intros [| k] c' o'; simpl.
    + intros [= <-] [= <-]. eauto.
    + apply Hk.
Qed.

Lemma perform_aligned sys c o :
  shards_aligned (the_arena sys) -> perform sys c = Some o ->
  shards_aligned (the_arena (commit sys c o)).
Proof.
  intros Hall Ho. apply perform_spec in Ho as [_ Ho].
  exact (proj1 (aligned_step _ _ _ _ _ _ _ Hall Ho)).
Qed.

(** C8, amended.  In every run of a fresh instance, a request that was
    served from a shard's window, with or without a reload, and asked
    [AllocateImpl] for a multiple of the pointer size got a pointer that is
    a multiple of the pointer size: every shard's [free_begin_] starts null
    or at an aligned window and only advances by multiples of the pointer
    size.  The inline-block shortcut, which runs under the shard's lock as
    well, is not served from a window and is left out: it returns what the
    closure returns. *)
Theorem shard_path_word_aligned shift block_size huge_page_size
    calls outs sys' k c o i reloaded :
  run (boot shift block_size huge_page_size) calls = Some (outs, sys') ->
  calls !! k = Some c ->
  outs !! k = Some o ->
  path o = ShardPath i reloaded ->
  impl_bytes (request c) mod sizeof_ptr = 0 ->
  rv o mod sizeof_ptr = 0 /\ shards_aligned (the_arena sys').
Proof.
  intros Hrun Hc Ho Hpath Hmod.
  destruct (run_invariant (fun sys => shards_aligned (the_arena sys))
              perform_aligned _ _ _ _
              (boot_shards_aligned shift block_size huge_page_size) Hrun)
    as [Hfinal Hk].
  split; [| exact Hfinal].
  destruct (Hk _ _ _ Hc Ho) as (sysk & Hall & Hperf).
  apply perform_spec in Hperf as [_ Hperf].
  destruct (aligned_step _ _ _ _ _ _ _ Hall Hperf) as (_ & Hshard & _).
  apply Hshard; eauto.
Qed.
End AlignmentClaims.

(** Two small requests of one thread on a fresh instance while the arena
    mutex is busy.  Both lock shard 0, find it empty and the arena inside
    its inline block, and are served by the arena's [Allocate] under the
    shard's lock.  The second asks for 16 bytes, a multiple of the pointer
    size, and gets 4109, the byte after the 13 of the first: not a multiple
    of the pointer size. *)
Lemma Allocate_under_shard_lock_is_unaligned :
  exists outs sys' o,
    run Scenario.fresh Workload.odd_then_even = Some (outs, sys')
    /\ outs !! 1%nat = Some o
    /\ 16 mod sizeof_ptr = 0
    /\ path o = InlineBlockPath 0
    /\ path o <> DirectPath
    /\ events o = [ArenaTryLock false; ShardTryLock 0 true;
                   ArenaLock; ArenaUnlock; ShardUnlock 0]
    /\ rv o = 4109
    /\ rv o mod sizeof_ptr = 5.
Proof.
  eexists _, _, _. split; [vm_compute; reflexivity |].
  split; [reflexivity |]. vm_compute. repeat split. discriminate.
Qed.

(** ** [AllocateAligned] *)

Section AllocateAlignedClaims.
Context {A : Type} `{ArenaLaws A}.
Implicit Types (ca : ConcurrentArena A) (o : Outcome A).

(** C7, amended.  For every request size with
    [1 <= bytes <= SIZE_MAX - sizeof(void* )], [AllocateAligned] computes
    [rounded_up = ((bytes - 1) | (sizeof(void* ) - 1)) + 1] without
    wrap-around; it is the least multiple of the pointer size that is
    [>= bytes], so [bytes <= rounded_up < bytes + sizeof(void* )]; the
    assertion passes and the call is [AllocateImpl] with that size, the
    flag [huge_page_size != 0] and the arena's aligned allocation as
    closure; the pointer a completed call returns is a multiple of the
    pointer size whenever every shard's [free_begin_] is. *)
Theorem AllocateAligned_rounds_up ca tls env bytes huge_page_size :
  1 <= bytes <= SizeT.max - sizeof_ptr ->
  rounded_up bytes = Z.lor (bytes - 1) (sizeof_ptr - 1) + 1
  /\ bytes <= rounded_up bytes < bytes + sizeof_ptr
  /\ rounded_up bytes mod sizeof_ptr = 0
  /\ (forall m, bytes <= m -> m mod sizeof_ptr = 0 -> rounded_up bytes <= m)
  /\ AllocateAligned ca tls env bytes huge_page_size
     = AllocateImpl ca tls env (rounded_up bytes)
         (negb (huge_page_size =? 0))
         (FAllocateAligned (rounded_up bytes) huge_page_size)
  /\ (shards_aligned ca ->
      forall o, AllocateAligned ca tls env bytes huge_page_size = Some o ->
                rv o mod sizeof_ptr = 0).
Proof.
  intros Hb.
  assert (1 <= bytes <= SizeT.max - (sizeof_ptr - 1)) as Hb'
    by (unfold sizeof_ptr in *; lia).
  pose proof (rounded_up_exact _ Hb') as Hexact.
  pose proof (rounded_up_multiple _ Hb') as Hmult.
  pose proof (Z.mod_pos_bound (bytes - 1) sizeof_ptr eq_refl) as Hrem.
  assert (AllocateAligned ca tls env bytes huge_page_size
          = AllocateImpl ca tls env (rounded_up bytes)
              (negb (huge_page_size =? 0))
              (FAllocateAligned (rounded_up bytes) huge_page_size)) as Hcall.
  { unfold AllocateAligned. now rewrite rounded_up_ok_true. }
  split.
  { rewrite Hexact. change (sizeof_ptr - 1) with (2 ^ Z.of_nat 3 - 1).
    rewrite lor_low_bits. change (2 ^ Z.of_nat 3) with sizeof_ptr.
    unfold sizeof_ptr. lia. }
  split; [unfold sizeof_ptr in *; lia |].
  split; [exact Hmult |].
  split.
  { intros m Hm Hmod. rewrite Hexact.
    pose proof (Z.div_mod m sizeof_ptr) as Hdm.
    pose proof (Z.div_mod (bytes - 1) sizeof_ptr) as Hdb.
    unfold sizeof_ptr in *. lia. }
  split; [exact Hcall |].
  intros Hall o Ho. rewrite Hcall in Ho.
  destruct (aligned_step _ _ _ _ _ _ _ Hall Ho) as (_ & _ & Hrv).
  apply Hrv; eauto.
Qed.
End AllocateAlignedClaims.

(** At [bytes = SIZE_MAX] the rounding wraps around to 0, which is below
    [bytes], and the assertion of [AllocateAligned] fails.  At
    [bytes = SIZE_MAX - 7] the rounding is still exact but the assertion's
    [bytes + sizeof(void* )] wraps around to 0, so the assertion fails there
    as well. *)
Lemma rounded_up_wraps_at_max :
  1 <= SizeT.max /\ size_t_range SizeT.max
  /\ rounded_up SizeT.max = 0
  /\ ~ (SizeT.max <= rounded_up SizeT.max)
  /\ rounded_up_ok SizeT.max = false
  /\ rounded_up (SizeT.max - 7) = SizeT.max - 7
  /\ rounded_up_ok (SizeT.max - 7) = false.
Proof. vm_compute. intuition congruence. Qed.

(** ** Re-picking a shard *)

Section RepickClaims.
Context {A : Type} `{ArenaOps A}.
Implicit Types (ca : ConcurrentArena A) (o : Outcome A) (sys : System A).

Lemma shard_of_bound ca id :
  (size_shift_ (shards_ ca) < 64)%nat ->
  shard_of ca id = id mod CoreLocal.Size (shards_ ca)
  /\ 0 <= shard_of ca id < CoreLocal.Size (shards_ ca).
Proof.
  intros Hk. unfold shard_of. rewrite (Size_pow2 _ Hk).
  pose proof (pow2_lt_modulus _ Hk) as Hpow.
  rewrite wrap_small by (unfold SizeT.in_range; lia).
  rewrite land_low_bits. split; [reflexivity |].
  apply Z.mod_pos_bound. lia.
Qed.

Lemma Repick_bound ca env j cpu :
  Repick ca env = Some (j, cpu) ->
  (size_shift_ (shards_ ca) < 64)%nat
  /\ 0 <= core_index env < CoreLocal.Size (shards_ ca)
  /\ cpu = CoreLocal.Size (shards_ ca) + core_index env.
Proof.
  intros Hr. apply Repick_spec in Hr as (-> & -> & s & Hs).
  pose proof (AccessAtCore_shift _ _ _ Hs) as Hk.
  apply AccessAtCore_Some in Hs as [Hi _].
  split; [exact Hk |]. split; [exact Hi |].
  rewrite (Size_pow2 _ Hk) in *. now apply lor_pow2_small.
Qed.

(** C6, amended.  [Repick] stores [index | Size()] in the caller's
    [tls_cpuid], where [index] is the slot index of the core the caller
    runs on and [Size()] the power of two of slots.  As [index < Size()],
    that is [Size() + index]: every repick yields an id of the one range
    [[Size(), 2 * Size())], whose low bits select the shard at [index],
    the shard [Repick] returns; the id depends on the current core only,
    not on the id the thread had before. *)
Theorem Repick_sets_index_or_size ca env j cpu :
  Repick ca env = Some (j, cpu) ->
  j = core_index env
  /\ cpu = Z.lor (core_index env) (CoreLocal.Size (shards_ ca))
  /\ CoreLocal.Size (shards_ ca) = 2 ^ Z.of_nat (size_shift_ (shards_ ca))
  /\ cpu = CoreLocal.Size (shards_ ca) + core_index env
  /\ CoreLocal.Size (shards_ ca) <= cpu < 2 * CoreLocal.Size (shards_ ca)
  /\ shard_of ca cpu = j.
Proof.
  intros Hr. destruct (Repick_bound _ _ _ _ Hr) as (Hk & Hi & Hcpu).
  apply Repick_spec in Hr as (-> & Hlor & _).
  split; [reflexivity |]. split; [exact Hlor |].
  split; [apply Size_pow2, Hk |]. split; [exact Hcpu |].
  split; [lia |].
  rewrite (proj1 (shard_of_bound ca cpu Hk)), Hcpu.
  rewrite <- (Z.mul_1_l (CoreLocal.Size (shards_ ca))) at 1.
  rewrite Z.add_comm, Z.mod_add by lia. apply Z.mod_small. exact Hi.
Qed.

Lemma AllocateImpl_tls ca tls env bytes force func o :
  AllocateImpl ca tls env bytes force func = Some o ->
  tls_after o = tls \/ exists j, Repick ca env = Some (j, tls_after o).
Proof.
  intros Ho. apply AllocateImpl_Serves in Ho.
  destruct Ho as [ev0 p a Hd Hf
                | ev0 i cpu ev1 s p a Hd Hl Hs Hlt Hex Hle Hin Hf
                | ev0 i cpu ev1 s p a q s' Hd Hl Hs Hlt Hex Hno Hal Hcv
                | ev0 i cpu ev1 s q s' Hd Hl Hs Hge Hcv]; simpl;
    [left; reflexivity | | |];
    apply lock_shard_spec in Hl as [(_ & _ & -> & _) | (_ & Hr & _)]; eauto.
Qed.

Lemma AllocateImpl_no_probe ca tls env bytes force func o :
  tls <> 0 ->
  AllocateImpl ca tls env bytes force func = Some o ->
  forall ok, head (events o) <> Some (ArenaTryLock ok).
Proof.
  intros Hne Ho ok. apply AllocateImpl_Serves in Ho.
  assert (forall direct ev0,
            goes_direct ca tls env bytes force = Some (direct, ev0) ->
            ev0 = []) as Hquiet.
  { intros direct ev0 Hd. apply goes_direct_spec in Hd.
    destruct Hd as [(_ & _ & ->) | [(_ & _ & _ & ->)
                   | [(_ & _ & _ & _ & ->) | (_ & _ & Hz & _)]]];
      try reflexivity. contradiction. }
  destruct Ho as [ev0 p a Hd Hf
                | ev0 i cpu ev1 s p a Hd Hl Hs Hlt Hex Hle Hin Hf
                | ev0 i cpu ev1 s p a q s' Hd Hl Hs Hlt Hex Hno Hal Hcv
                | ev0 i cpu ev1 s q s' Hd Hl Hs Hge Hcv];
    rewrite (Hquiet _ _ Hd); simpl; try discriminate;
    destruct (lock_shard_head _ _ _ _ _ _ Hl) as (j & b & rest & ->);
    discriminate.
Qed.

Lemma tls_of_commit sys c o t :
  tls_of (commit sys c o) t
  = if decide (caller c = t) then tls_after o else tls_of sys t.
Proof.
  unfold tls_of, commit; simpl. rewrite lookup_insert.
  destruct (decide _); reflexivity.
Qed.

Lemma perform_keeps_nonzero sys c o t :
  tls_of sys t <> 0 -> perform sys c = Some o ->
  tls_of (commit sys c o) t <> 0.
Proof.
  intros Hne Ho. rewrite tls_of_commit.
  case_decide as Hc; [subst t | exact Hne].
  apply perform_spec in Ho as [_ Ho].
  apply AllocateImpl_tls in Ho as [-> | (j & Hr)]; [exact Hne |].
  apply Repick_bound in Hr as (Hk & Hi & ->).
  pose proof (pow2_lt_modulus _ Hk). rewrite (Size_pow2 _ Hk) in *. lia.
Qed.
End RepickClaims.

Section RepickRuns.
Context {A : Type} `{ArenaOps A}.
Implicit Types (ca : ConcurrentArena A) (o : Outcome A) (sys : System A).

Lemma AllocateImpl_repicked ca tls env bytes force func o :
  AllocateImpl ca tls env bytes force func = Some o ->
  path o <> DirectPath ->
  shard_try_lock env = false ->
  exists j, Repick ca env = Some (j, tls_after o).
Proof.
  intros Ho Hpath Hbusy. apply AllocateImpl_Serves in Ho.
  destruct Ho as [ev0 p a Hd Hf
                | ev0 i cpu ev1 s p a Hd Hl Hs Hlt Hex Hle Hin Hf
                | ev0 i cpu ev1 s p a q s' Hd Hl Hs Hlt Hex Hno Hal Hcv
                | ev0 i cpu ev1 s q s' Hd Hl Hs Hge Hcv]; simpl in *;
    [contradiction | | |];
    apply lock_shard_spec in Hl as [(Hok & _) | (_ & Hr & _)];
    try congruence; eauto.
Qed.

(** C10.  A call that finds its shard locked re-picks: afterwards the
    caller's [tls_cpuid] is [index | Size()], which lies in
    [[Size(), 2 * Size())] and so is not 0.  From then on the id of that
    thread is never 0 again, whatever calls follow, and none of the
    thread's later calls evaluates the try-lock of the arena mutex, the
    last operand of the start-up condition that requires the id to be 0.
    For every id whatsoever the index [id & (Size() - 1)] of the shard
    tried first is below [Size()]. *)
Theorem repicked_id_stays_nonzero sys c o calls outs sys' id :
  perform sys c = Some o ->
  path o <> DirectPath ->
  shard_try_lock (call_env c) = false ->
  let size := CoreLocal.Size (shards_ (the_arena sys)) in
  let sys1 := commit sys c o in
  tls_of sys1 (caller c) = Z.lor (core_index (call_env c)) size
  /\ size <= tls_of sys1 (caller c) < 2 * size
  /\ tls_of sys1 (caller c) <> 0
  /\ (run sys1 calls = Some (outs, sys') ->
      tls_of sys' (caller c) <> 0
      /\ forall k c' o',
           calls !! k = Some c' -> outs !! k = Some o' ->
           caller c' = caller c ->
           forall ok, head (events o') <> Some (ArenaTryLock ok))
  /\ 0 <= shard_of (the_arena sys) id < size.
Proof.
  intros Ho Hpath Hbusy size sys1.
  apply perform_spec in Ho as [_ Ho].
  destruct (AllocateImpl_repicked _ _ _ _ _ _ _ Ho Hpath Hbusy) as (j & Hr).
  destruct (Repick_bound _ _ _ _ Hr) as (Hk & Hi & Hcpu).
  pose proof (pow2_lt_modulus _ Hk) as Hpow.
  pose proof (Size_pow2 (shards_ (the_arena sys)) Hk) as Hsize.
  fold size in Hi, Hcpu, Hsize.
  assert (tls_of sys1 (caller c) = tls_after o) as Htls.
  { unfold sys1. rewrite tls_of_commit. destruct (decide _); congruence. }
  rewrite Htls.
  apply Repick_spec in Hr as (_ & Hlor & _).
  split; [exact Hlor |]. split; [lia |].
  assert (tls_after o <> 0) as Hnz by lia.
  split; [exact Hnz |]. split; [| apply shard_of_bound, Hk].
  intros Hrun.
  destruct (run_invariant (fun s => tls_of s (caller c) <> 0)
              (fun s c' o' => perform_keeps_nonzero s c' o' (caller c))
              calls sys1 outs sys') as [Hfinal Hcalls];
    [rewrite Htls; exact Hnz | exact Hrun |].
  split; [exact Hfinal |].
  intros k c' o' Hc' Ho' Hsame ok.
  destruct (Hcalls _ _ _ Hc' Ho') as (sysk & Hk' & Hperf).
  apply perform_spec in Hperf as [_ Hperf]. rewrite Hsame in Hperf.
  exact (AllocateImpl_no_probe _ _ _ _ _ _ _ Hk' Hperf ok).
Qed.
End RepickRuns.

(** ** Queries *)

Section QueryClaims.
Context {A : Type} `{ArenaOps A}.
Implicit Types (ca : ConcurrentArena A).

Lemma AccessAtCore_lookup (shards : CoreLocalArray Shard) (i : Z) :
  0 <= i < CoreLocal.Size shards ->
  CoreLocal.AccessAtCore shards i = data_ shards !! Z.to_nat i.
Proof.
  intros [Hlo Hhi]. unfold CoreLocal.AccessAtCore.
  now rewrite (proj2 (Z.leb_le _ _) Hlo), (proj2 (Z.ltb_lt _ _) Hhi).
Qed.

(** The loop adds up, modulo [2^64], the capacities of the [n] shards
    from index [i] on. *)
Lemma sum_shards_spec (shards : CoreLocalArray Shard) (n : nat) :
  forall (i : Z) (total : Z),
    size_t_range total ->
    0 <= i ->
    i + Z.of_nat n <= CoreLocal.Size shards ->
    (Z.to_nat i + n <= length (data_ shards))%nat ->
    sum_shards shards i n total
    = Some (wrap (total
                  + foldr Z.add 0
                      (allocated_and_unused_
                         <$> take n (drop (Z.to_nat i) (data_ shards))))).
Proof.
  induction n as [| n IH]; intros i total Htotal Hi Hsize Hlen.
  - simpl. rewrite Z.add_0_r, wrap_small by exact Htotal. reflexivity.
  - destruct (lookup_lt_is_Some_2 (data_ shards) (Z.to_nat i)) as [s Hs];
      [lia |].
    simpl. rewrite AccessAtCore_lookup by lia. rewrite Hs; simpl.
    rewrite IH; [| apply wrap_range | lia | lia | lia].
    rewrite (drop_S _ _ _ Hs); simpl. f_equal.
    replace (Z.to_nat (i + 1)) with (S (Z.to_nat i)) by lia.
    unfold wrap. rewrite Zdiv.Zplus_mod_idemp_l. f_equal.
    symmetry. apply Z.add_assoc.
Qed.

Lemma ShardAllocatedAndUnused_spec ca :
  length (data_ (shards_ ca)) = Z.to_nat (CoreLocal.Size (shards_ ca)) ->
  ShardAllocatedAndUnused ca
  = Some (wrap (foldr Z.add 0 (allocated_and_unused_ <$> data_ (shards_ ca)))).
Proof.
  intros Hlen. unfold ShardAllocatedAndUnused.
  pose proof (wrap_range (Z.shiftl 1 (Z.of_nat (size_shift_ (shards_ ca)))))
    as Hsize. fold (CoreLocal.Size (shards_ ca)) in Hsize.
  rewrite sum_shards_spec;
    [| split; [lia | reflexivity] | lia
     | unfold SizeT.in_range in Hsize; lia | lia].
  simpl. rewrite <- Hlen, firstn_all. reflexivity.
Qed.

(** C9, amended.  None of [ApproximateMemoryUsage], [MemoryAllocatedBytes],
    [AllocatedAndUnused], [IrregularBlockNum] and [BlockSize] allocates or
    changes the arena, the shards or the cached counters.
    [ApproximateMemoryUsage] takes the arena mutex once and returns the
    arena's approximate usage minus the sum of the shards' remaining
    capacities.  The others take no lock: [MemoryAllocatedBytes] and
    [IrregularBlockNum] return a cached counter, [AllocatedAndUnused] the
    cached unused amount plus the sum of the shards' capacities, and
    [BlockSize] returns the block size of the arena itself, not a cached
    counter.  All sums are [size_t] arithmetic. *)
Theorem queries_are_read_only ca :
  length (data_ (shards_ ca)) = Z.to_nat (CoreLocal.Size (shards_ ca)) ->
  let total :=
    wrap (foldr Z.add 0 (allocated_and_unused_ <$> data_ (shards_ ca))) in
  ApproximateMemoryUsage ca
  = Some (wrap (Arena_ApproximateMemoryUsage (arena_ ca) - total), ca,
          [ArenaLock; ArenaUnlock])
  /\ MemoryAllocatedBytes ca = Some (memory_allocated_bytes_ ca, ca, [])
  /\ AllocatedAndUnused ca
     = Some (wrap (arena_allocated_and_unused_ ca + total), ca, [])
  /\ IrregularBlockNum ca = Some (irregular_block_num_ ca, ca, [])
  /\ BlockSize ca = Some (Arena_BlockSize (arena_ ca), ca, []).
Proof.
  intros Hlen total.
  unfold ApproximateMemoryUsage, AllocatedAndUnused.
  rewrite (ShardAllocatedAndUnused_spec ca Hlen). fold total.
  repeat split.
Qed.
End QueryClaims.

(** ** No aliasing *)

Section NoAliasing.
Context {A : Type} `{ArenaLaws A}.
Implicit Types (ca : ConcurrentArena A) (o : Outcome A) (sys : System A).
Implicit Types (handed region fresh : Z -> Prop).

Lemma call_func_fresh func (a : A) p a' :
  call_func func a = (p, a') ->
  (forall x, in_range p (func_size func) x -> arena_free a x) /\
  (forall x, arena_free a' x ->
             arena_free a x /\ ~ in_range p (func_size func) x).
Proof.
  destruct func as [bytes | rounded h]; simpl; intros Hf.
  - exact (Allocate_fresh _ _ _ _ Hf).
  - exact (AllocateAligned_fresh _ _ _ _ _ Hf).
Qed.

(** The arena serves a request itself: the shards stay as they are. *)
Lemma no_alias_arena_step ca ca' handed fresh region :
  no_alias ca handed ->
  shards_ ca' = shards_ ca ->
  shard_block_size_ ca' = shard_block_size_ ca ->
  (forall x, region x -> arena_free (arena_ ca) x) ->
  (forall x, arena_free (arena_ ca') x ->
             arena_free (arena_ ca) x /\ ~ region x) ->
  (forall x, fresh x -> region x) ->
  (forall x, fresh x -> ~ handed x)
  /\ no_alias ca' (fun x => handed x \/ fresh x).
Proof.
  intros [Hfree Hwin Hapart Hsizes Hsbs] Hsh Hbs Hreg Hshrink Hsub.
  split; [intros x Hx; apply Hfree, Hreg, Hsub, Hx |].
  split; rewrite ?Hsh, ?Hbs; try assumption.
  - intros x Hx [Hh | Hf].
    + exact (Hfree x (proj1 (Hshrink x Hx)) Hh).
    + exact (proj2 (Hshrink x Hx) (Hsub x Hf)).
  - intros i s x Hs Hx. destruct (Hwin i s x Hs Hx) as [Hnh Hnf].
    split.
    + intros [Hh | Hf]; [exact (Hnh Hh) | exact (Hnf (Hreg x (Hsub x Hf)))].
    + intros Hf'. exact (Hnf (proj1 (Hshrink x Hf'))).
Qed.

(** A shard hands out part of a [region] that nobody else owns and keeps
    the rest of it as its window. *)
Lemma no_alias_shard_step ca ca' handed fresh region i s s' :
  no_alias ca handed ->
  CoreLocal.AccessAtCore (shards_ ca) i = Some s ->
  shards_ ca' = CoreLocal.store (shards_ ca) i s' ->
  shard_block_size_ ca' = shard_block_size_ ca ->
  (forall x, arena_free (arena_ ca') x -> arena_free (arena_ ca) x) ->
  (forall x, region x -> ~ handed x) ->
  (forall x, region x -> ~ arena_free (arena_ ca') x) ->
  (forall j t x, j <> Z.to_nat i -> data_ (shards_ ca) !! j = Some t ->
                 window t x -> ~ region x) ->
  (forall x, fresh x -> region x) ->
  (forall x, window s' x -> region x) ->
  (forall x, fresh x -> ~ window s' x) ->
  size_t_range (allocated_and_unused_ s') ->
  (forall x, fresh x -> ~ handed x)
  /\ no_alias ca' (fun x => handed x \/ fresh x).
Proof.
  intros [Hfree Hwin Hapart Hsizes Hsbs] Hs Hsh Hbs Hshrink Hrh Hrf Hrw
    Hfr Hwr Hfw Hsize.
  split; [intros x Hx; apply Hrh, Hfr, Hx |].
  assert (forall j t, data_ (shards_ ca') !! j = Some t ->
            (j = Z.to_nat i /\ t = s')
            \/ (j <> Z.to_nat i /\ data_ (shards_ ca) !! j = Some t))
    as Hlook.
  { intros j t. rewrite Hsh. simpl. rewrite list_lookup_insert_Some.
    intros [(<- & <- & _) | (Hne & Ht)]; [left | right]; auto. }
  split; rewrite ?Hbs; try assumption.
  - intros x Hx [Hh | Hf].
    + exact (Hfree x (Hshrink x Hx) Hh).
    + exact (Hrf x (Hfr x Hf) Hx).
  - intros j t x Ht Hx.
    destruct (Hlook _ _ Ht) as [(-> & ->) | (Hne & Ht')].
    + split.
      * intros [Hh | Hf]; [exact (Hrh x (Hwr x Hx) Hh) | exact (Hfw x Hf Hx)].
      * exact (Hrf x (Hwr x Hx)).
    + destruct (Hwin j t x Ht' Hx) as [Hnh Hnf]. split.
      * intros [Hh | Hf]; [exact (Hnh Hh) |].
        exact (Hrw j t x Hne Ht' Hx (Hfr x Hf)).
      * intros Hf'. exact (Hnf (Hshrink x Hf')).
  - intros j1 j2 t1 t2 x Hne Ht1 Ht2 Hx1 Hx2.
    destruct (Hlook _ _ Ht1) as [(-> & ->) | (Hne1 & Ht1')],
      (Hlook _ _ Ht2) as [(-> & ->) | (Hne2 & Ht2')].
    + contradiction.
    + exact (Hrw j2 t2 x Hne2 Ht2' Hx2 (Hwr x Hx1)).
    + exact (Hrw j1 t1 x Hne1 Ht1' Hx1 (Hwr x Hx2)).
    + exact (Hapart j1 j2 t1 t2 x Hne Ht1' Ht2' Hx1 Hx2).
  - rewrite Hsh. simpl. apply Forall_insert; assumption.
Qed.

(** What [carve] hands out and what it keeps split the window. *)
Lemma carve_splits (s : Shard) (avail bytes q : Z) (s' : Shard) :
  0 <= bytes <= avail -> size_t_range avail ->
  carve s avail bytes = (q, s') ->
  size_t_range (allocated_and_unused_ s')
  /\ (forall x, in_range q bytes x -> in_range (free_begin_ s) avail x)
  /\ (forall x, window s' x -> in_range (free_begin_ s) avail x)
  /\ (forall x, in_range q bytes x -> ~ window s' x).
Proof.
  intros Hb Ha Hcv. rewrite (carve_spec _ _ _ Hb Ha) in Hcv.
  unfold window, in_range, SizeT.in_range in *.
  destruct (bytes mod sizeof_ptr =? 0); injection Hcv as <- <-; simpl;
    (split; [lia |]); (split; [intros x; lia |]); split; intros x; lia.
Qed.

Lemma AllocateImpl_no_alias ca tls env bytes force func o handed n :
  no_alias ca handed ->
  0 <= bytes -> func_size func = bytes -> n <= bytes ->
  AllocateImpl ca tls env bytes force func = Some o ->
  (forall x, in_range (rv o) n x -> ~ handed x)
  /\ no_alias (after o) (fun x => handed x \/ in_range (rv o) n x).
Proof.
  intros Hinv Hb Hsize Hn Ho. apply AllocateImpl_Serves in Ho.
  assert (forall q x, in_range q n x -> in_range q bytes x) as Hsub
    by (unfold in_range; intros; lia).
  destruct Ho as [ev0 p a Hd Hf
                | ev0 i cpu ev1 s p a Hd Hl Hs Hlt Hex Hle Hin Hf
                | ev0 i cpu ev1 s p a q s' Hd Hl Hs Hlt Hex Hno Hal Hcv
                | ev0 i cpu ev1 s q s' Hd Hl Hs Hge Hcv]; simpl.
  - destruct (call_func_fresh _ _ _ _ Hf) as [Hin' Hout]. rewrite Hsize in *.
    eapply (no_alias_arena_step ca _ handed _ (in_range p bytes));
      eauto; reflexivity.
  - destruct (call_func_fresh _ _ _ _ Hf) as [Hin' Hout]. rewrite Hsize in *.
    eapply (no_alias_arena_step ca _ handed _ (in_range p bytes));
      eauto; reflexivity.
  - pose proof (goes_direct_small _ _ _ _ _ _ Hd) as Hsmall.
    rewrite Hex in Hal, Hcv.
    destruct (reload_size_bounds ca bytes (conj Hb Hsmall)
                (na_block_size _ _ Hinv)) as [Hbw Hwr].
    destruct (AllocateAligned_fresh _ _ _ _ _ Hal) as [Hin' Hout].
    destruct (carve_splits _ _ _ _ _ Hbw Hwr Hcv)
      as (Hsz & Hfresh & Hkeep & Hapart).
    simpl in Hfresh, Hkeep.
    eapply (no_alias_shard_step ca _ handed _
              (in_range p (reload_size ca (Arena_AllocatedAndUnused (arena_ ca))))
              i s s'); eauto; try reflexivity; simpl.
    + intros x Hx. exact (proj1 (Hout x Hx)).
    + intros x Hx. exact (na_free _ _ Hinv x (Hin' x Hx)).
    + intros x Hx Hf. exact (proj2 (Hout x Hf) Hx).
    + intros j t x _ Ht Hx Hr.
      exact (proj2 (na_window _ _ Hinv j t x Ht Hx) (Hin' x Hr)).
  - pose proof Hs as Hs'. apply AccessAtCore_Some in Hs' as [Hi Hlook].
    assert (size_t_range (allocated_and_unused_ s)) as Hwr.
    { pose proof (na_sizes _ _ Hinv) as Hall. rewrite Forall_lookup in Hall.
      exact (Hall _ _ Hlook). }
    destruct (carve_splits _ _ _ _ _ (conj Hb Hge) Hwr Hcv)
      as (Hsz & Hfresh & Hkeep & Hapart).
    eapply (no_alias_shard_step ca _ handed _ (window s) i s s');
      eauto; try reflexivity; simpl.
    + intros x Hx. exact (proj1 (na_window _ _ Hinv _ s x Hlook Hx)).
    + intros x Hx. exact (proj2 (na_window _ _ Hinv _ s x Hlook Hx)).
    + intros j t x Hne Ht Hx Hr.
      exact (na_apart _ _ Hinv j (Z.to_nat i) t s x Hne Ht Hlook Hx Hr).
    + intros x Hx. exact (Hfresh x (Hsub q x Hx)).
Qed.

Lemma perform_no_alias sys c o handed :
  no_alias (the_arena sys) handed ->
  size_t_range (requested (request c)) ->
  perform sys c = Some o ->
  (forall x, in_range (rv o) (requested (request c)) x -> ~ handed x)
  /\ no_alias (the_arena (commit sys c o))
       (fun x => handed x \/ in_range (rv o) (requested (request c)) x).
Proof.
  intros Hinv Hreq Ho. apply perform_spec in Ho as [Hok Ho].
  apply (AllocateImpl_no_alias (the_arena sys) (tls_of sys (caller c))
           (call_env c) (impl_bytes (request c)) (impl_force (request c))
           (impl_func (request c)) o handed (requested (request c)) Hinv);
    [ | | | exact Ho].
  - destruct (request c) as [bytes | bytes h]; simpl in *.
    + apply Hreq.
    + apply (rounded_up_ok_spec _ Hok).
  - destruct (request c); reflexivity.
  - destruct (request c) as [bytes | bytes h]; simpl in *.
    + lia.
    + apply (rounded_up_ok_spec _ Hok).
Qed.

Lemma boot_no_alias shift block_size huge_page_size :
  no_alias (the_arena (boot shift block_size huge_page_size)) (fun _ => False).
Proof.
  assert (forall i s,
            replicate (2 ^ shift)%nat Shard_new !! i = Some s -> s = Shard_new)
    as Hnew by (intros i s Hs; apply lookup_replicate in Hs; tauto).
  split; simpl.
  - tauto.
  - intros i s x Hs Hx. rewrite (Hnew _ _ Hs) in Hx.
    unfold window, in_range in Hx; simpl in Hx. lia.
  - intros i j s t x _ Hs _ Hx. rewrite (Hnew _ _ Hs) in Hx.
    unfold window, in_range in Hx; simpl in Hx. lia.
  - apply Forall_replicate. split; [simpl; lia | reflexivity].
  - apply Z.le_min_l.
Qed.

Lemma run_no_alias calls :
  forall sys handed outs sys',
    no_alias (the_arena sys) handed ->
    Forall (fun c => size_t_range (requested (request c))) calls ->
    run sys calls = Some (outs, sys') ->
    (forall k c o x,
       calls !! k = Some c -> outs !! k = Some o ->
       in_range (rv o) (requested (request c)) x -> ~ handed x)
    /\ (forall k1 k2 c1 c2 o1 o2 x,
          k1 <> k2 ->
          calls !! k1 = Some c1 -> outs !! k1 = Some o1 ->
          calls !! k2 = Some c2 -> outs !! k2 = Some o2 ->
          ~ (in_range (rv o1) (requested (request c1)) x
             /\ in_range (rv o2) (requested (request c2)) x)).
Proof.
  induction calls as [| c calls IH]; intros sys handed outs sys' Hinv Hreq Hrun.
  - split; intros; discriminate.
  - apply run_cons in Hrun as (o & outs' & Ho & Hrun & ->).
    apply Forall_cons in Hreq as [Hreq Hreqs].
    destruct (perform_no_alias _ _ _ _ Hinv Hreq Ho) as [Hnew Hinv'].
    destruct (IH _ _ _ _ Hinv' Hreqs Hrun) as [Hold Hpair].
    split.
    + intros [| k] c' o' x; simpl.
      * intros [= <-] [= <-]. apply Hnew.
      * intros Hc Ho' Hx Hh. exact (Hold k c' o' x Hc Ho' Hx (or_introl Hh)).
    + intros [| k1] [| k2] c1 c2 o1 o2 x Hne; simpl.
      * contradiction.
      * intros [= <-] [= <-] Hc2 Ho2 [Hx1 Hx2].
        exact (Hold k2 c2 o2 x Hc2 Ho2 Hx2 (or_intror Hx1)).
      * intros Hc1 Ho1 [= <-] [= <-] [Hx1 Hx2].
        exact (Hold k1 c1 o1 x Hc1 Ho1 Hx1 (or_intror Hx2)).
      * apply Hpair. congruence.
Qed.

(** C1.  In every run of a fresh instance, whatever the threads, the
    requests ([Allocate] or [AllocateAligned], of any [size_t] size) and
    the outcomes of the try-locks, the byte ranges
    [[pointer, pointer + bytes)] returned by two different completed calls
    have no byte in common.  In particular what a shard hands out from the
    front of its window and what it hands out from its end never meet: the
    capacity shrinks by [bytes] on every request, so the window left is
    always what lies between the two. *)
Theorem returned_ranges_disjoint shift block_size huge_page_size
    calls outs sys' k1 k2 c1 c2 o1 o2 x :
  Forall (fun c => size_t_range (requested (request c))) calls ->
  run (boot shift block_size huge_page_size) calls = Some (outs, sys') ->
  k1 <> k2 ->
  calls !! k1 = Some c1 -> outs !! k1 = Some o1 ->
  calls !! k2 = Some c2 -> outs !! k2 = Some o2 ->
  ~ (in_range (rv o1) (requested (request c1)) x
     /\ in_range (rv o2) (requested (request c2)) x).
Proof.
  intros Hreq Hrun Hne Hc1 Ho1 Hc2 Ho2.
  destruct (run_no_alias calls _ _ _ _
              (boot_no_alias shift block_size huge_page_size) Hreq Hrun)
    as [_ Hpair].
  exact (Hpair k1 k2 c1 c2 o1 o2 x Hne Hc1 Ho1 Hc2 Ho2).
Qed.
End NoAliasing.

(** * The scenarios, run *)

Lemma size_t_small (z : Z) : 0 <= z < 2 ^ 32 -> size_t_range z.
Proof.
  intros Hz. unfold SizeT.in_range, SizeT.modulus, SizeT.bits. lia.
Qed.

(** Shard 0 serves 16 bytes from the front of its window and then 13 bytes
    from its end: the two ranges share no byte, as for address 4120. *)
Lemma returned_ranges_disjoint_witness :
  exists outs sys' o1 o2,
    run Scenario.fresh Scenario.calls = Some (outs, sys')
    /\ outs !! 2%nat = Some o1 /\ outs !! 3%nat = Some o2
    /\ path o1 = ShardPath 0 true /\ path o2 = ShardPath 0 false
    /\ rv o1 = 4112 /\ rv o2 = 4611
    /\ ~ (in_range (rv o1) 16 4120 /\ in_range (rv o2) 13 4120).
Proof.
  eexists _, _, _, _.
  split; [vm_compute; reflexivity |].
  split; [reflexivity |]. split; [reflexivity |].
  do 4 (split; [reflexivity |]).
  eapply (returned_ranges_disjoint 3 4096 0 Scenario.calls _ _ 2 3
            (MkCall 0 (ReqAllocate 16) Scenario.arena_busy)
            (MkCall 0 (ReqAllocate 13) Scenario.arena_busy) _ _ 4120).
  - repeat constructor; simpl; try (apply size_t_small; lia).
  - vm_compute; reflexivity.
  - lia.
  - reflexivity.
  - reflexivity.
  - reflexivity.
  - reflexivity.
Defined.

(** A request larger than a quarter of the shard block size goes to the
    arena directly; so does a small one of a thread whose id is still 0 when
    slot 0 is empty and the arena mutex free. *)
Lemma direct_path_exactly_when_witness :
  (exists o,
     AllocateImpl (the_arena Scenario.fresh) 0 Scenario.arena_busy 2040 false
       (FAllocate 2040) = Some o
     /\ path o = DirectPath)
  /\ (exists o,
        AllocateImpl (the_arena Scenario.fresh) 0 Scenario.idle 13 false
          (FAllocate 13) = Some o
        /\ path o = DirectPath
        /\ events o = [ArenaTryLock true; ArenaUnlock])
  /\ (exists o,
        AllocateImpl (the_arena Scenario.fresh) 0 Scenario.arena_busy 13 false
          (FAllocate 13) = Some o
        /\ path o <> DirectPath).
Proof.
  split; [| split].
  - apply (proj1 (direct_path_exactly_when (the_arena Scenario.fresh) 0
                    Scenario.arena_busy 2040 false (FAllocate 2040))).
    left. vm_compute. reflexivity.
  - destruct (AllocateImpl (the_arena Scenario.fresh) 0 Scenario.idle 13 false
                (FAllocate 13)) as [o |] eqn:Ho;
      [| vm_compute in Ho; discriminate Ho].
    exists o. split; [reflexivity |].
    destruct (proj2 (direct_path_exactly_when (the_arena Scenario.fresh) 0
                       Scenario.idle 13 false (FAllocate 13)) o Ho)
      as (Hiff & _ & Hdirect & _).
    assert (path o = DirectPath) as Hpath.
    { apply Hiff. right; right. split; [reflexivity |]. split; [| reflexivity].
      exists Shard_new. split; reflexivity. }
    split; [exact Hpath |].
    destruct (Hdirect Hpath) as (_ & _ & _ & [Hev | Hev]); [| exact Hev].
    vm_compute in Ho. injection Ho as <-. discriminate Hev.
  - destruct (AllocateImpl (the_arena Scenario.fresh) 0 Scenario.arena_busy 13
                false (FAllocate 13)) as [o |] eqn:Ho;
      [| vm_compute in Ho; discriminate Ho].
    exists o. split; [reflexivity |].
    destruct (proj2 (direct_path_exactly_when (the_arena Scenario.fresh) 0
                       Scenario.arena_busy 13 false (FAllocate 13)) o Ho)
      as (Hiff & _).
    intros Hdirect. apply Hiff in Hdirect.
    destruct Hdirect as [Hbig | [Hforce | (_ & _ & Hlock)]].
    + vm_compute in Hbig. discriminate Hbig.
    + discriminate Hforce.
    + discriminate Hlock.
Defined.

(** The 13-byte request against a window of 100 bytes. *)
Lemma carve_from_shard_witness :
  exists o s',
    AllocateImpl Scenario.hundred 0 Scenario.arena_busy 13 false
      (FAllocate 13) = Some o
    /\ path o = ShardPath 0 false
    /\ CoreLocal.AccessAtCore (shards_ (after o)) 0 = Some s'
    /\ rv o = 8192 + 100 - 13
    /\ allocated_and_unused_ s' = 100 - 13
    /\ free_begin_ s' = 8192.
Proof.
  destruct (proj1 (carve_from_shard Scenario.hundred 0 Scenario.arena_busy 13
                     false (FAllocate 13) [] 0 0 [ShardTryLock 0 true]
                     (MkShard 8192 100)
                     ltac:(lia)
                     ltac:(apply size_t_small; simpl; lia)
                     ltac:(vm_compute; reflexivity)
                     ltac:(vm_compute; reflexivity)
                     ltac:(vm_compute; reflexivity)
                     ltac:(simpl; lia)))
    as (o & s' & Ho & Hpath & Hs' & Hcap & _ & Htail & _).
  exists o, s'.
  destruct Htail as [Hrv Hfb]; [vm_compute; discriminate |].
  repeat split; assumption.
Defined.

(** A reload with 8 bytes left in the arena's block: the window is a whole
    shard block. *)
Lemma reload_window_witness :
  exists window p a o s',
    window = 512
    /\ Arena_AllocateAligned (arena_ Scenario.nearly_full) window 0 = (p, a)
    /\ p mod sizeof_ptr = 0
    /\ AllocateImpl Scenario.nearly_full 0 Scenario.arena_busy 64 false
         (FAllocate 64) = Some o
    /\ path o = ShardPath 0 true
    /\ CoreLocal.AccessAtCore (shards_ (after o)) 0 = Some s'
    /\ allocated_and_unused_ s' = window - 64
    /\ rv o = p /\ free_begin_ s' = p + 64.
Proof.
  destruct (reload_window Scenario.nearly_full 0 Scenario.arena_busy 64 false
              (FAllocate 64) [ArenaTryLock false] 0 0 [ShardTryLock 0 true]
              Shard_new
              ltac:(lia)
              ltac:(vm_compute; discriminate)
              ltac:(vm_compute; reflexivity)
              ltac:(vm_compute; reflexivity)
              ltac:(vm_compute; reflexivity)
              ltac:(simpl; lia)
              ltac:(vm_compute; reflexivity)
              ltac:(intros [Hle _]; vm_compute in Hle; apply Hle; reflexivity))
    as (window & p & a & o & s' & _ & Hout & Hal & Halign & Ho & Hpath & _ & _
        & _ & _ & Hs' & Hcap & Hfront & _ & _).
  exists window, p, a, o, s'.
  destruct Hfront as [Hrv Hfb]; [vm_compute; reflexivity |].
  split.
  { apply Hout. intros [Hlo _]. vm_compute in Hlo. apply Hlo. reflexivity. }
  repeat split; assumption.
Defined.

(** Four small requests on a fresh instance, the arena mutex busy: all are
    served from the inline block and the shards stay as constructed. *)
Lemma inline_block_shortcut_witness :
  exists outs sys',
    within_inline_block Scenario.fresh Scenario.small_calls = true
    /\ run Scenario.fresh Scenario.small_calls = Some (outs, sys')
    /\ shards_ (the_arena sys') = CoreLocal.make 3 Shard_new
    /\ Forall (fun s => allocated_and_unused_ s = 0)
         (data_ (shards_ (the_arena sys')))
    /\ exists o,
         AllocateImpl (the_arena Scenario.fresh) 0 Scenario.arena_busy 13 false
           (FAllocate 13) = Some o
         /\ path o = InlineBlockPath 0
         /\ shards_ (after o) = shards_ (the_arena Scenario.fresh).
Proof.
  destruct (run Scenario.fresh Scenario.small_calls) as [[outs sys'] |] eqn:Hrun;
    [| vm_compute in Hrun; discriminate Hrun].
  exists outs, sys'.
  split; [vm_compute; reflexivity |].
  split; [reflexivity |].
  destruct (inline_block_shortcut (the_arena Scenario.fresh) 0
              Scenario.arena_busy 13 false (FAllocate 13)
              [ArenaTryLock false] 0 0 [ShardTryLock 0 true] Shard_new
              3%nat 4096 0 Scenario.small_calls outs sys') as [Hcall Hall].
  destruct Hall as (Hshards & Hempty & _);
    [vm_compute; reflexivity | exact Hrun |].
  split; [exact Hshards |]. split; [exact Hempty |].
  destruct Hcall as (o & Ho & Hpath & _ & _ & Hsame);
    try (vm_compute; reflexivity); try (vm_compute; discriminate).
  exists o. auto.
Defined.

(** Re-picking on core 5 of the eight-slot machine stores 13. *)
Lemma Repick_sets_index_or_size_witness :
  Repick (the_arena Scenario.fresh) (Scenario.shard_busy 5) = Some (5, 13)
  /\ 13 = Z.lor 5 (CoreLocal.Size (shards_ (the_arena Scenario.fresh)))
  /\ CoreLocal.Size (shards_ (the_arena Scenario.fresh)) = 2 ^ 3
  /\ CoreLocal.Size (shards_ (the_arena Scenario.fresh)) <= 13
     < 2 * CoreLocal.Size (shards_ (the_arena Scenario.fresh))
  /\ shard_of (the_arena Scenario.fresh) 13 = 5.
Proof.
  assert (Repick (the_arena Scenario.fresh) (Scenario.shard_busy 5)
          = Some (5, 13)) as Hr by (vm_compute; reflexivity).
  split; [exact Hr |].
  destruct (Repick_sets_index_or_size _ _ _ _ Hr)
    as (_ & Hlor & Hsize & _ & Hrange & Hshard).
  repeat split; try assumption; apply Hrange.
Defined.

(** A thread that re-picks on core 5 and then on core 3 gets the id 13 and
    then the id 11: the ids do not grow, and both lie in [[2^3, 2^4)]. *)
Lemma repick_ids_do_not_grow :
  Repick (the_arena Scenario.fresh) (Scenario.shard_busy 5) = Some (5, 13)
  /\ Repick (the_arena Scenario.fresh) (Scenario.shard_busy 3) = Some (3, 11)
  /\ ~ (13 <= 11)
  /\ (2 ^ 3 <= 13 < 2 ^ 4) /\ (2 ^ 3 <= 11 < 2 ^ 4)
  /\ exists outs sys',
       run Scenario.fresh Scenario.calls = Some (outs, sys')
       /\ tls_after <$> outs = [0; 0; 0; 0; 13; 11; 11]
       /\ (caller <$> Scenario.calls = [0; 0; 0; 0; 1; 1; 1]%nat).
Proof.
  split; [vm_compute; reflexivity |].
  split; [vm_compute; reflexivity |].
  split; [lia |]. split; [lia |]. split; [lia |].
  eexists _, _. split; [vm_compute; reflexivity |].
  split; reflexivity.
Qed.

(** Rounding 13 up gives 16. *)
Lemma AllocateAligned_rounds_up_witness :
  1 <= 13 <= SizeT.max - sizeof_ptr
  /\ rounded_up 13 = 16
  /\ 13 <= rounded_up 13 < 13 + sizeof_ptr
  /\ rounded_up 13 mod sizeof_ptr = 0
  /\ AllocateAligned (the_arena Scenario.fresh) 0 Scenario.idle 13 0
     = AllocateImpl (the_arena Scenario.fresh) 0 Scenario.idle
         (rounded_up 13) false (FAllocateAligned (rounded_up 13) 0).
Proof.
  assert (1 <= 13 <= SizeT.max - sizeof_ptr) as Hb
    by (vm_compute; split; discriminate).
  split; [exact Hb |].
  destruct (AllocateAligned_rounds_up (the_arena Scenario.fresh) 0
              Scenario.idle 13 0 Hb)
    as (Hlor & Hrange & Hmult & _ & Hcall & _).
  split; [exact Hlor |]. repeat split; try assumption; apply Hrange.
Defined.

(** The 16 bytes shard 0 serves after its reload start at a multiple of the
    pointer size. *)
Lemma shard_path_word_aligned_witness :
  exists outs sys' o,
    run Scenario.fresh Scenario.calls = Some (outs, sys')
    /\ outs !! 2%nat = Some o
    /\ path o = ShardPath 0 true
    /\ rv o = 4112
    /\ rv o mod sizeof_ptr = 0.
Proof.
  eexists _, _, _.
  split; [vm_compute; reflexivity |].
  split; [reflexivity |]. split; [reflexivity |]. split; [reflexivity |].
  eapply (shard_path_word_aligned 3 4096 0 Scenario.calls _ _ 2
            (MkCall 0 (ReqAllocate 16) Scenario.arena_busy) _ 0 true).
  - vm_compute; reflexivity.
  - reflexivity.
  - reflexivity.
  - reflexivity.
  - reflexivity.
Defined.

(** The queries on a fresh instance. *)
Lemma queries_are_read_only_witness :
  length (data_ (shards_ (the_arena Scenario.fresh)))
  = Z.to_nat (CoreLocal.Size (shards_ (the_arena Scenario.fresh)))
  /\ ApproximateMemoryUsage (the_arena Scenario.fresh)
     = Some (0, the_arena Scenario.fresh, [ArenaLock; ArenaUnlock])
  /\ AllocatedAndUnused (the_arena Scenario.fresh)
     = Some (2048, the_arena Scenario.fresh, [])
  /\ BlockSize (the_arena Scenario.fresh)
     = Some (4096, the_arena Scenario.fresh, []).
Proof.
  assert (length (data_ (shards_ (the_arena Scenario.fresh)))
          = Z.to_nat (CoreLocal.Size (shards_ (the_arena Scenario.fresh))))
    as Hlen by (vm_compute; reflexivity).
  split; [exact Hlen |].
  destruct (queries_are_read_only (the_arena Scenario.fresh) Hlen)
    as (Husage & _ & Hunused & _ & Hblock).
  split; [exact Husage |]. split; [exact Hunused | exact Hblock].
Defined.

(** Two instances whose cached counters and shards agree, over arenas of
    different block sizes: [BlockSize] tells them apart, so it does not
    return a cached counter. *)
Lemma BlockSize_is_not_a_cached_counter :
  arena_allocated_and_unused_ (the_arena Scenario.fresh)
  = arena_allocated_and_unused_ (the_arena Scenario.fresh_wide)
  /\ memory_allocated_bytes_ (the_arena Scenario.fresh)
     = memory_allocated_bytes_ (the_arena Scenario.fresh_wide)
  /\ irregular_block_num_ (the_arena Scenario.fresh)
     = irregular_block_num_ (the_arena Scenario.fresh_wide)
  /\ shards_ (the_arena Scenario.fresh) = shards_ (the_arena Scenario.fresh_wide)
  /\ BlockSize (the_arena Scenario.fresh)
     = Some (4096, the_arena Scenario.fresh, [])
  /\ BlockSize (the_arena Scenario.fresh_wide)
     = Some (8192, the_arena Scenario.fresh_wide, [])
  /\ 4096 <> arena_allocated_and_unused_ (the_arena Scenario.fresh)
  /\ 4096 <> memory_allocated_bytes_ (the_arena Scenario.fresh)
  /\ 4096 <> irregular_block_num_ (the_arena Scenario.fresh).
Proof. vm_compute. repeat split; discriminate. Qed.

(** Thread 1 finds its shard locked on core 5; its id becomes 13 and is not
    0 after the calls that follow. *)
Lemma repicked_id_stays_nonzero_witness :
  exists o outs sys',
    perform Scenario.fresh Scenario.contended_call = Some o
    /\ path o <> DirectPath
    /\ tls_of (commit Scenario.fresh Scenario.contended_call o) 1 = 13
    /\ run (commit Scenario.fresh Scenario.contended_call o)
         Scenario.later_calls = Some (outs, sys')
    /\ tls_of sys' 1 <> 0
    /\ 0 <= shard_of (the_arena Scenario.fresh) 12345
       < CoreLocal.Size (shards_ (the_arena Scenario.fresh)).
Proof.
  destruct (perform Scenario.fresh Scenario.contended_call) as [o |] eqn:Ho;
    [| vm_compute in Ho; discriminate Ho].
  assert (path o = InlineBlockPath 5) as Hpath
    by (vm_compute in Ho; injection Ho as <-; reflexivity).
  destruct (run (commit Scenario.fresh Scenario.contended_call o)
              Scenario.later_calls) as [[outs sys'] |] eqn:Hrun.
  2:{ vm_compute in Ho. injection Ho as <-. vm_compute in Hrun.
      discriminate Hrun. }
  exists o, outs, sys'.
  destruct (repicked_id_stays_nonzero Scenario.fresh Scenario.contended_call o
              Scenario.later_calls outs sys' 12345 Ho
              ltac:(rewrite Hpath; discriminate) eq_refl)
    as (Hid & _ & _ & Hlater & Hshard).
  split; [reflexivity |]. split; [rewrite Hpath; discriminate |].
  split; [exact (eq_trans Hid eq_refl) |].
  split; [exact Hrun |].
  split; [exact (proj1 (Hlater Hrun)) | exact Hshard].
Defined.

(** * Further properties of the code *)

(** ** The domain and the algebra of the rounding *)

Lemma rounded_up_zero : rounded_up 0 = 0 /\ rounded_up_ok 0 = true.
Proof. vm_compute. split; reflexivity. Qed.

Lemma rounded_up_ok_top (bytes : Z) :
  SizeT.max - sizeof_ptr < bytes <= SizeT.max -> rounded_up_ok bytes = false.
Proof.
  intros Hb.
  assert (bytes = SizeT.max - 7 \/ bytes = SizeT.max - 6
          \/ bytes = SizeT.max - 5 \/ bytes = SizeT.max - 4
          \/ bytes = SizeT.max - 3 \/ bytes = SizeT.max - 2
          \/ bytes = SizeT.max - 1 \/ bytes = SizeT.max) as Hcases
    by (unfold sizeof_ptr in Hb; lia).
  destruct Hcases as [-> | [-> | [-> | [-> | [-> | [-> | [-> | ->]]]]]]];
    vm_compute; reflexivity.
Qed.

Section RoundingFacts.
Context {A : Type} `{ArenaOps A}.
Implicit Types (ca : ConcurrentArena A).

(** X6.  For a [size_t] request size the assertion of [AllocateAligned]
    passes exactly when [bytes <= SIZE_MAX - sizeof(void* )]; the eight
    largest sizes abort the call. *)
Theorem AllocateAligned_domain ca tls env bytes huge_page_size :
  size_t_range bytes ->
  (rounded_up_ok bytes = true <-> bytes <= SizeT.max - sizeof_ptr)
  /\ (SizeT.max - sizeof_ptr < bytes ->
      AllocateAligned ca tls env bytes huge_page_size = None)
  /\ (bytes <= SizeT.max - sizeof_ptr ->
      AllocateAligned ca tls env bytes huge_page_size
      = AllocateImpl ca tls env (rounded_up bytes)
          (negb (huge_page_size =? 0))
          (FAllocateAligned (rounded_up bytes) huge_page_size)).
Proof.
  intros Hb.
  assert (bytes <= SizeT.max - sizeof_ptr -> rounded_up_ok bytes = true)
    as Hlow.
  { intros Hle. destruct (Z.eq_dec bytes 0) as [-> | Hnz].
    - exact (proj2 rounded_up_zero).
    - apply rounded_up_ok_true. unfold SizeT.in_range in Hb. lia. }
  assert (SizeT.max - sizeof_ptr < bytes -> rounded_up_ok bytes = false)
    as Hhigh.
  { intros Hgt. apply rounded_up_ok_top.
    unfold SizeT.in_range, SizeT.max in *. lia. }
  split; [split; [| exact Hlow] |].
  - intros Hok.
    destruct (Z.le_gt_cases bytes (SizeT.max - sizeof_ptr)) as [? | Hgt];
      [assumption |].
    rewrite Hhigh in Hok by lia. discriminate Hok.
  - unfold AllocateAligned. split; intros Hcmp.
    + now rewrite Hhigh.
    + now rewrite Hlow.
Qed.
End RoundingFacts.

(** X7.  Below the sizes that wrap around, rounding up leaves multiples of
    the pointer size alone, rounding twice is rounding once, and a larger
    request never gets a smaller rounded size. *)
Theorem rounded_up_algebra (bytes bytes' : Z) :
  0 <= bytes <= bytes' ->
  bytes' <= SizeT.max - (sizeof_ptr - 1) ->
  (bytes mod sizeof_ptr = 0 -> rounded_up bytes = bytes)
  /\ rounded_up (rounded_up bytes) = rounded_up bytes
  /\ rounded_up bytes <= rounded_up bytes'.
Proof.
  intros Hb Hmax.
  assert (forall b, 0 <= b <= SizeT.max - (sizeof_ptr - 1) ->
                    rounded_up b = sizeof_ptr * ((b + (sizeof_ptr - 1)) / sizeof_ptr))
    as Hdiv.
  { intros b Hb'. destruct (Z.eq_dec b 0) as [-> | Hnz]; [reflexivity |].
    rewrite rounded_up_exact by lia.
    pose proof (Z.div_mod (b - 1) sizeof_ptr ltac:(discriminate)) as Hdm.
    replace (b + (sizeof_ptr - 1)) with ((b - 1) + 1 * sizeof_ptr)
      by (unfold sizeof_ptr; lia).
    rewrite Z.div_add by discriminate. unfold sizeof_ptr in *. lia. }
  assert (forall b, 0 <= b <= SizeT.max - (sizeof_ptr - 1) ->
                    b mod sizeof_ptr = 0 -> rounded_up b = b) as Hfix.
  { intros b Hb' Hmod. rewrite Hdiv by exact Hb'.
    pose proof (Z.div_mod b sizeof_ptr ltac:(discriminate)) as Hdm.
    rewrite Hmod, Z.add_0_r in Hdm.
    replace (b + (sizeof_ptr - 1))
      with ((sizeof_ptr - 1) + (b / sizeof_ptr) * sizeof_ptr)
      by (unfold sizeof_ptr in *; lia).
    rewrite Z.div_add by discriminate.
    change ((sizeof_ptr - 1) / sizeof_ptr) with 0. lia. }
  assert (rounded_up bytes <= rounded_up bytes') as Hmono.
  { rewrite !Hdiv by lia. apply Z.mul_le_mono_nonneg_l; [discriminate |].
    apply Z.div_le_mono; [reflexivity | lia]. }
  split; [apply Hfix; lia |]. split; [| exact Hmono].
  apply Hfix.
  - split.
    + rewrite Hdiv by lia. apply Z.mul_nonneg_nonneg; [discriminate |].
      apply Z.div_pos; [unfold sizeof_ptr; lia | reflexivity].
    + rewrite <- (Hfix (SizeT.max - (sizeof_ptr - 1)));
        [| vm_compute; split; discriminate | reflexivity].
      rewrite !Hdiv; [| vm_compute; split; discriminate | lia].
      apply Z.mul_le_mono_nonneg_l; [discriminate |].
      apply Z.div_le_mono; [reflexivity | lia].
  - rewrite Hdiv by lia. rewrite Z.mul_comm. apply Z.mod_mul. discriminate.
Qed.

(** ** Forced requests, empty requests, locks *)

Section CallFacts.
Context {A : Type} `{ArenaOps A}.
Implicit Types (ca : ConcurrentArena A) (o : Outcome A).

(** X8.  [AllocateAligned] with a non-zero [huge_page_size] never reaches
    a shard, whatever the size, the caller's id and the state of the locks.
    A size the assertion rejects aborts the call before [AllocateImpl].
    Every other size goes to the arena: the call takes the arena mutex with
    a blocking lock, never tries a lock, returns what the arena's aligned
    allocation of the rounded size with that [huge_page_size] returns, and
    leaves the shards and the caller's id alone. *)
Theorem huge_page_size_forces_arena ca tls env bytes huge_page_size :
  huge_page_size <> 0 ->
  if rounded_up_ok bytes then
    exists o,
      AllocateAligned ca tls env bytes huge_page_size = Some o
      /\ path o = DirectPath
      /\ (rv o, arena_ (after o))
         = Arena_AllocateAligned (arena_ ca) (rounded_up bytes) huge_page_size
      /\ shards_ (after o) = shards_ ca
      /\ tls_after o = tls
      /\ events o = [ArenaLock; ArenaUnlock]
  else AllocateAligned ca tls env bytes huge_page_size = None.
Proof.
  intros Hhuge.
  destruct (rounded_up_ok bytes) eqn:Hok;
    [| unfold AllocateAligned; now rewrite Hok].
  destruct (Arena_AllocateAligned (arena_ ca) (rounded_up bytes) huge_page_size)
    as [p a] eqn:Hal.
  exists (MkOutcome p (Fixup (set_arena ca a)) tls DirectPath
            [ArenaLock; ArenaUnlock]).
  split; [| simpl; auto].
  unfold AllocateAligned. rewrite Hok.
  apply Serves_AllocateImpl.
  apply (Serves_direct ca tls env _ _ _ [] p a); [| exact Hal].
  unfold goes_direct. destruct (_ <? _); [reflexivity |].
  apply Z.eqb_neq in Hhuge. now rewrite Hhuge.
Qed.

Lemma set_shard_same ca i s :
  CoreLocal.AccessAtCore (shards_ ca) i = Some s -> set_shard ca i s = ca.
Proof.
  intros Hs. unfold set_shard. rewrite (store_same _ _ _ Hs).
  now destruct ca.
Qed.

(** X5.  A request for zero bytes that reaches a shard changes nothing and
    returns the shard's [free_begin_] as it is: the null pointer if the
    shard never had a window. *)
Theorem zero_bytes_from_shard ca tls env force func ev0 i cpu ev1 s :
  size_t_range (allocated_and_unused_ s) ->
  goes_direct ca tls env 0 force = Some (false, ev0) ->
  lock_shard ca tls env = Some (i, cpu, ev1) ->
  CoreLocal.AccessAtCore (shards_ ca) i = Some s ->
  exists o,
    AllocateImpl ca tls env 0 force func = Some o
    /\ rv o = free_begin_ s
    /\ after o = ca
    /\ path o = ShardPath i false
    /\ (s = Shard_new -> rv o = 0).
Proof.
  intros Hr Hd Hl Hs.
  assert (carve s (allocated_and_unused_ s) 0 = (free_begin_ s, s)) as Hcv.
  { rewrite carve_spec by (unfold SizeT.in_range in *; lia). simpl.
    rewrite Z.add_0_r, Z.sub_0_r. now destruct s. }
  exists (MkOutcome (free_begin_ s) (set_shard ca i s) cpu (ShardPath i false)
            (ev0 ++ ev1 ++ [ShardUnlock i])).
  split.
  { apply Serves_AllocateImpl. eapply Serves_shard; eauto.
    unfold SizeT.in_range in Hr. lia. }
  simpl. split; [reflexivity |]. split; [apply set_shard_same, Hs |].
  split; [reflexivity |]. now intros ->.
Qed.

(** X4.  The locks of a completed call: the (try-)lock of a shard's mutex
    happens while the call holds nothing, the arena mutex is taken last and
    released first, every mutex taken is released before the call returns,
    and the call re-picks at most once: exactly when it is not served
    directly and found its shard's mutex taken. *)
Theorem locks_are_nested ca tls env bytes force func o :
  AllocateImpl ca tls env bytes force func = Some o ->
  locks_ok false None (events o) = true
  /\ (repicks (events o) <= 1)%nat
  /\ (repicks (events o) = 1%nat <->
      path o <> DirectPath /\ shard_try_lock env = false).
Proof.
  intros Ho. apply AllocateImpl_Serves in Ho.
  assert (forall direct ev0,
            goes_direct ca tls env bytes force = Some (direct, ev0) ->
            ev0 = [] \/ ev0 = [ArenaTryLock direct]) as Hev0.
  { intros direct ev0 Hd. apply goes_direct_spec in Hd.
    destruct Hd as [(_ & _ & ->) | [(_ & _ & _ & ->) | [(_ & _ & _ & _ & ->)
                   | (_ & _ & _ & s0 & _ & [(_ & _ & ->) | (_ & -> & ->)])]]];
      auto. }
  assert (forall i : Z, bool_decide (Some i = Some i) = true) as Hsame
    by (intros i; apply bool_decide_eq_true_2; reflexivity).
  destruct Ho as [ev0 p a Hd Hf
                | ev0 i cpu ev1 s p a Hd Hl Hs Hlt Hex Hle Hin Hf
                | ev0 i cpu ev1 s p a q s' Hd Hl Hs Hlt Hex Hno Hal Hcv
                | ev0 i cpu ev1 s q s' Hd Hl Hs Hge Hcv]; simpl;
    destruct (Hev0 _ _ Hd) as [-> | ->];
    try (apply lock_shard_spec in Hl
           as [(Hok & _ & _ & ->) | (Hok & _ & ->)]);
    simpl; rewrite ?Hsame; simpl;
    (split; [reflexivity |]); (split; [lia |]);
    split; try lia; try congruence;
    try (intros [Hp _]; congruence);
    try (intros _; split; [discriminate | assumption]);
    intros [_ Hbusy]; congruence.
Qed.
End CallFacts.

(** ** Runs of a fresh instance *)

Section RunFacts.
Context {A : Type} `{ArenaOps A}.
Implicit Types (ca : ConcurrentArena A) (o : Outcome A) (sys : System A).

Lemma AllocateImpl_frame ca tls env bytes force func o :
  AllocateImpl ca tls env bytes force func = Some o ->
  shard_block_size_ (after o) = shard_block_size_ ca
  /\ size_shift_ (shards_ (after o)) = size_shift_ (shards_ ca)
  /\ CoreLocal.Size (shards_ (after o)) = CoreLocal.Size (shards_ ca)
  /\ length (data_ (shards_ (after o))) = length (data_ (shards_ ca)).
Proof.
  intros Ho. apply AllocateImpl_Serves in Ho.
  destruct Ho; simpl; rewrite ?length_insert; auto.
Qed.

Lemma perform_well_formed sys c o :
  well_formed (the_arena sys) -> perform sys c = Some o ->
  well_formed (the_arena (commit sys c o)).
Proof.
  intros Hwf Ho. apply perform_spec in Ho as [_ Ho].
  exact (proj1 (AllocateImpl_well_formed _ _ _ _ _ _ _ Hwf Ho)).
Qed.

Lemma run_length calls :
  forall sys outs sys',
    run sys calls = Some (outs, sys') -> length outs = length calls.
Proof.
  induction calls as [| c calls IH]; intros sys outs sys' Hrun.
  - now injection Hrun as <- _.
  - apply run_cons in Hrun as (o & outs' & _ & Hrun & ->).
    simpl. f_equal. exact (IH _ _ _ Hrun).
Qed.

(** X1.  On a fresh instance every sequence of calls completes, provided
    each passes the assertion of [AllocateAligned] and runs on a core that
    has a slot: the assertion [exact == arena_.AllocatedAndUnused()] of the
    reload never fails, since every way through [AllocateImpl] that changes
    the arena ends with [Fixup]. *)
Theorem fresh_run_completes shift block_size huge_page_size calls :
  (shift < 64)%nat ->
  Forall (fun c => request_ok (request c) = true
                   /\ 0 <= core_index (call_env c) < 2 ^ Z.of_nat shift)
    calls ->
  exists outs sys',
    run (boot shift block_size huge_page_size) calls = Some (outs, sys')
    /\ length outs = length calls
    /\ arena_allocated_and_unused_ (the_arena sys')
       = Arena_AllocatedAndUnused (arena_ (the_arena sys')).
Proof.
  intros Hk Hcalls.
  pose proof (new_well_formed shift block_size huge_page_size Hk) as Hwf.
  destruct (run_completes calls (boot shift block_size huge_page_size) Hwf)
    as (outs & sys' & Hrun & Hwf').
  { eapply Forall_impl; [exact Hcalls |]. intros c [Hok Hcore].
    split; [exact Hok |]. simpl.
    rewrite (Size_pow2 (CoreLocal.make shift Shard_new) Hk). exact Hcore. }
  exists outs, sys'. split; [exact Hrun |].
  split; [exact (run_length _ _ _ _ Hrun) | exact (wf_unused _ Hwf')].
Qed.

(** X2.  Between calls the statistics are current: in every state a fresh
    instance reaches, [MemoryAllocatedBytes] and [IrregularBlockNum] return
    what the arena itself reports and [AllocatedAndUnused] returns the
    arena's unused bytes plus the shards' remaining capacities. *)
Theorem statistics_are_current shift block_size huge_page_size
    calls outs sys' :
  (shift < 64)%nat ->
  run (boot shift block_size huge_page_size) calls = Some (outs, sys') ->
  MemoryAllocatedBytes (the_arena sys')
  = Some (Arena_MemoryAllocatedBytes (arena_ (the_arena sys')),
          the_arena sys', [])
  /\ IrregularBlockNum (the_arena sys')
     = Some (Arena_IrregularBlockNum (arena_ (the_arena sys')),
             the_arena sys', [])
  /\ AllocatedAndUnused (the_arena sys')
     = Some (wrap (Arena_AllocatedAndUnused (arena_ (the_arena sys'))
                   + wrap (shards_unused (the_arena sys'))),
             the_arena sys', []).
Proof.
  intros Hk Hrun.
  destruct (run_invariant (fun sys => well_formed (the_arena sys))
              perform_well_formed calls
              (boot shift block_size huge_page_size) outs sys'
              (new_well_formed shift block_size huge_page_size Hk) Hrun)
    as [[_ Hlen Hc1 Hc2 Hc3] _].
  unfold MemoryAllocatedBytes, IrregularBlockNum, AllocatedAndUnused.
  rewrite (ShardAllocatedAndUnused_spec _ Hlen), Hc1, Hc2, Hc3.
  repeat split.
Qed.

Lemma tls_of_boot_among ids shift block_size huge_page_size thread :
  tls_of (A := A) (boot_among ids shift block_size huge_page_size) thread
  = default 0 (ids !! thread).
Proof. reflexivity. Qed.

Lemma uncontended_step ca env bytes force func o :
  no_shard_window ca -> arena_try_lock env = true ->
  AllocateImpl ca 0 env bytes force func = Some o ->
  path o = DirectPath /\ shards_ (after o) = shards_ ca /\ tls_after o = 0.
Proof.
  intros Hnone Hfree Ho. apply AllocateImpl_Serves in Ho.
  assert (forall direct ev0,
            goes_direct ca 0 env bytes force = Some (direct, ev0) ->
            direct = true) as Hdirect.
  { intros direct ev0 Hd. apply goes_direct_spec in Hd.
    destruct Hd as [(_ & -> & _) | [(_ & _ & -> & _) | [(_ & _ & Hne & _)
                   | (_ & _ & _ & s0 & Hs0 & [(Hnz & _) | (_ & -> & _)])]]];
      try reflexivity; try contradiction; [| exact Hfree].
    apply AccessAtCore_Some in Hs0 as [_ Hs0].
    unfold no_shard_window in Hnone. rewrite Forall_lookup in Hnone.
    rewrite (Hnone _ _ Hs0) in Hnz. contradiction. }
  destruct Ho as [ev0 p a Hd Hf
                | ev0 i cpu ev1 s p a Hd Hl Hs Hlt Hex Hle Hin Hf
                | ev0 i cpu ev1 s p a q s' Hd Hl Hs Hlt Hex Hno Hal Hcv
                | ev0 i cpu ev1 s q s' Hd Hl Hs Hge Hcv];
    try (apply Hdirect in Hd; discriminate Hd).
  simpl. auto.
Qed.

(** X11.  While no call finds the arena mutex taken, threads that have
    not re-picked never use the shards.  On a new instance, in a process
    whose threads carry any ids, if the id of every calling thread is 0 at
    the start, every call of such a run is served by the arena directly,
    whatever its size, every shard stays as constructed and no thread's id
    changes. *)
Theorem uncontended_runs_stay_direct ids shift block_size huge_page_size
    calls outs sys' :
  Forall (fun c => arena_try_lock (call_env c) = true) calls ->
  Forall (fun c => default 0 (ids !! caller c) = 0) calls ->
  run (boot_among ids shift block_size huge_page_size) calls
  = Some (outs, sys') ->
  Forall (fun o => path o = DirectPath) outs
  /\ shards_ (the_arena sys') = CoreLocal.make shift Shard_new
  /\ forall thread, tls_of sys' thread = default 0 (ids !! thread).
Proof.
  intros Hfree Hnew Hrun.
  assert (forall calls sys outs sys',
            no_shard_window (the_arena sys) ->
            (forall t, tls_of sys t = default 0 (ids !! t)) ->
            Forall (fun c => arena_try_lock (call_env c) = true) calls ->
            Forall (fun c => default 0 (ids !! caller c) = 0) calls ->
            run sys calls = Some (outs, sys') ->
            Forall (fun o => path o = DirectPath) outs
            /\ shards_ (the_arena sys') = shards_ (the_arena sys)
            /\ forall t, tls_of sys' t = default 0 (ids !! t)) as Hgen.
  { clear. induction calls as [| c calls IH];
      intros sys outs sys' Hnone Hids Hfree Hnew Hrun.
    - injection Hrun as <- <-. auto.
    - apply run_cons in Hrun as (o & outs' & Ho & Hrun & ->).
      apply Forall_cons in Hfree as [Hc Hfree].
      apply Forall_cons in Hnew as [Hz Hnew].
      apply perform_spec in Ho as [_ Ho]. rewrite Hids, Hz in Ho.
      destruct (uncontended_step _ _ _ _ _ _ Hnone Hc Ho)
        as (Hpath & Hsh & Htls).
      destruct (IH (commit sys c o) outs' sys') as (Hall & Hsh' & Hz');
        try assumption.
      + unfold no_shard_window. simpl. rewrite Hsh. exact Hnone.
      + intros t. rewrite tls_of_commit.
        destruct (decide _) as [<- | _]; [congruence | apply Hids].
      + split; [constructor; assumption |].
        split; [simpl in Hsh'; congruence | exact Hz']. }
  apply (Hgen calls (boot_among ids shift block_size huge_page_size)
           outs sys'); try assumption.
  - unfold no_shard_window; simpl. apply Forall_replicate. reflexivity.
  - intros t. apply tls_of_boot_among.
Qed.

Lemma perform_id_range sys c o t :
  (tls_of sys t = 0
   \/ CoreLocal.Size (shards_ (the_arena sys)) <= tls_of sys t
      < 2 * CoreLocal.Size (shards_ (the_arena sys))) ->
  perform sys c = Some o ->
  tls_of (commit sys c o) t = 0
  \/ CoreLocal.Size (shards_ (the_arena sys)) <= tls_of (commit sys c o) t
     < 2 * CoreLocal.Size (shards_ (the_arena sys)).
Proof.
  intros Hid Ho. rewrite tls_of_commit.
  destruct (decide (caller c = t)) as [<- | _]; [| exact Hid].
  apply perform_spec in Ho as [_ Ho].
  apply AllocateImpl_tls in Ho as [-> | (j & Hr)]; [exact Hid |].
  apply Repick_bound in Hr as (_ & Hi & ->). right. lia.
Qed.

(** X13.  A thread's [tls_cpuid] is 0 or [Size() + index] for the index of
    a slot: after any run of a fresh instance every thread's id is 0 or
    lies in [[Size(), 2 * Size())]. *)
Theorem ids_are_zero_or_repicked shift block_size huge_page_size
    calls outs sys' thread :
  run (boot shift block_size huge_page_size) calls = Some (outs, sys') ->
  CoreLocal.Size (shards_ (the_arena sys'))
  = CoreLocal.Size (CoreLocal.make shift Shard_new)
  /\ (tls_of sys' thread = 0
      \/ CoreLocal.Size (shards_ (the_arena sys')) <= tls_of sys' thread
         < 2 * CoreLocal.Size (shards_ (the_arena sys'))).
Proof.
  intros Hrun.
  set (size := CoreLocal.Size (CoreLocal.make shift Shard_new)).
  destruct (run_invariant
              (fun sys => CoreLocal.Size (shards_ (the_arena sys)) = size
                          /\ (tls_of sys thread = 0
                              \/ size <= tls_of sys thread < 2 * size)))
    with (calls := calls) (sys := boot shift block_size huge_page_size)
         (outs := outs) (sys' := sys') as [[Hsize Hid] _].
  - intros sys c o [Hsize Hid] Ho. split.
    + apply perform_spec in Ho as Ho'. destruct Ho' as [_ Ho'].
      destruct (AllocateImpl_frame _ _ _ _ _ _ _ Ho') as (_ & _ & Hs & _).
      simpl. congruence.
    + rewrite <- Hsize in Hid |- *. exact (perform_id_range _ _ _ _ Hid Ho).
  - split; [reflexivity | left; reflexivity].
  - exact Hrun.
  - rewrite Hsize. auto.
Qed.

(** X14.  [shard_block_size_] is fixed by the constructor at
    [min(128 KiB, block_size / 8)] and never changes; so a request that is
    not served directly by the arena is not forced and asks for at most a
    quarter of that, 32 KiB at most. *)
Theorem shard_requests_are_small shift block_size huge_page_size
    calls outs sys' k c o :
  run (boot shift block_size huge_page_size) calls = Some (outs, sys') ->
  calls !! k = Some c ->
  outs !! k = Some o ->
  path o <> DirectPath ->
  shard_block_size_ (the_arena sys') = Z.min kMaxShardBlockSize (block_size / 8)
  /\ impl_bytes (request c) <= Z.min kMaxShardBlockSize (block_size / 8) / 4
  /\ impl_bytes (request c) <= 32 * 1024
  /\ impl_force (request c) = false.
Proof.
  intros Hrun Hc Ho Hpath.
  set (sbs := Z.min kMaxShardBlockSize (block_size / 8)).
  destruct (run_invariant
              (fun sys => shard_block_size_ (the_arena sys) = sbs))
    with (calls := calls) (sys := boot shift block_size huge_page_size)
         (outs := outs) (sys' := sys') as [Hfinal Hk].
  - intros sys c' o' Hsbs Ho'. apply perform_spec in Ho' as [_ Ho'].
    destruct (AllocateImpl_frame _ _ _ _ _ _ _ Ho') as (Hs & _).
    simpl. congruence.
  - reflexivity.
  - exact Hrun.
  - split; [exact Hfinal |].
    destruct (Hk _ _ _ Hc Ho) as (sysk & Hsbs & Hperf).
    apply perform_spec in Hperf as [_ Hperf].
    apply AllocateImpl_Serves in Hperf.
    assert (forall ev0,
              goes_direct (the_arena sysk) (tls_of sysk (caller c)) (call_env c)
                (impl_bytes (request c)) (impl_force (request c))
              = Some (false, ev0) ->
              impl_bytes (request c) <= sbs / 4
              /\ impl_force (request c) = false) as Hsmall.
    { intros ev0 Hd. rewrite <- Hsbs. apply goes_direct_spec in Hd.
      destruct Hd as [(_ & [=] & _) | [(_ & _ & [=] & _)
                     | [(? & ? & _) | (? & ? & _)]]]; auto. }
    assert (sbs / 4 <= 32 * 1024) as Hcap.
    { apply Z.div_le_upper_bound; [lia |].
      pose proof (Z.le_min_l kMaxShardBlockSize (block_size / 8)).
      unfold sbs, kMaxShardBlockSize in *. lia. }
    destruct Hperf as [ev0 p a Hd Hf
                  | ev0 i cpu ev1 s p a Hd Hl Hs Hlt Hex Hle Hin Hf
                  | ev0 i cpu ev1 s p a q s' Hd Hl Hs Hlt Hex Hno Hal Hcv
                  | ev0 i cpu ev1 s q s' Hd Hl Hs Hge Hcv];
      [simpl in Hpath; contradiction | | |];
      destruct (Hsmall _ Hd) as [Hle' Hforce]; repeat split; auto; lia.
Qed.
End RunFacts.

(** ** Accounting *)

Lemma sum_capacities_insert (l : list Shard) (i : nat) (s s' : Shard) :
  l !! i = Some s ->
  foldr Z.add 0 (allocated_and_unused_ <$> <[i := s']> l)
  = foldr Z.add 0 (allocated_and_unused_ <$> l)
    - allocated_and_unused_ s + allocated_and_unused_ s'.
Proof.
  revert i. induction l as [| t l IH]; intros [| i] Hs; try discriminate.
  - injection Hs as ->. simpl. lia.
  - change (<[S i := s']> (t :: l)) with (t :: <[i := s']> l).
    rewrite !fmap_cons. cbn [foldr]. rewrite (IH i Hs). lia.
Qed.

Lemma wrap_add_wrap (a b : Z) : wrap (a + wrap b) = wrap (a + b).
Proof. apply Zdiv.Zplus_mod_idemp_r. Qed.

Lemma wrap_sub_wrap (a b : Z) : wrap (a - wrap b) = wrap (a - b).
Proof. apply Zdiv.Zminus_mod_idemp_r. Qed.

Lemma wrap_wrap_sub (a b : Z) : wrap (wrap a - b) = wrap (a - b).
Proof. apply Zdiv.Zminus_mod_idemp_l. Qed.

Lemma wrap_wrap_add (a b : Z) : wrap (wrap a + b) = wrap (a + b).
Proof. apply Zdiv.Zplus_mod_idemp_l. Qed.

Section Accounting.
Context {A : Type} `{ArenaOps A}.
Implicit Types (ca : ConcurrentArena A) (o : Outcome A).

(** X3.  A request served from a shard's window without a reload moves
    exactly [bytes] from unused to used in the statistics: the shards'
    capacities drop by [bytes] in total, so [AllocatedAndUnused] answers
    [bytes] less and [ApproximateMemoryUsage] answers [bytes] more than
    before (in [size_t] arithmetic), while the cached counters, hence
    [MemoryAllocatedBytes] and [IrregularBlockNum], do not move. *)
Theorem shard_served_accounting ca tls env bytes force func o i :
  length (data_ (shards_ ca)) = Z.to_nat (CoreLocal.Size (shards_ ca)) ->
  Forall (fun s => size_t_range (allocated_and_unused_ s))
    (data_ (shards_ ca)) ->
  0 <= bytes ->
  AllocateImpl ca tls env bytes force func = Some o ->
  path o = ShardPath i false ->
  shards_unused (after o) = shards_unused ca - bytes
  /\ (exists v,
        AllocatedAndUnused ca = Some (v, ca, [])
        /\ AllocatedAndUnused (after o)
           = Some (wrap (v - bytes), after o, []))
  /\ (exists u,
        ApproximateMemoryUsage ca = Some (u, ca, [ArenaLock; ArenaUnlock])
        /\ ApproximateMemoryUsage (after o)
           = Some (wrap (u + bytes), after o, [ArenaLock; ArenaUnlock]))
  /\ MemoryAllocatedBytes (after o)
     = Some (memory_allocated_bytes_ ca, after o, [])
  /\ IrregularBlockNum (after o)
     = Some (irregular_block_num_ ca, after o, []).
Proof.
  intros Hlen Hsizes Hb Ho Hpath. apply AllocateImpl_Serves in Ho.
  destruct Ho as [ev0 p a Hd Hf
                | ev0 j cpu ev1 s p a Hd Hl Hs Hlt Hex Hle Hin Hf
                | ev0 j cpu ev1 s p a q s' Hd Hl Hs Hlt Hex Hno Hal Hcv
                | ev0 j cpu ev1 s q s' Hd Hl Hs Hge Hcv];
    try discriminate Hpath.
  pose proof Hs as Hs'. apply AccessAtCore_Some in Hs' as [_ Hlook].
  assert (size_t_range (allocated_and_unused_ s)) as Hr.
  { rewrite Forall_lookup in Hsizes. exact (Hsizes _ _ Hlook). }
  rewrite (carve_spec _ _ _ (conj Hb Hge) Hr) in Hcv.
  assert (allocated_and_unused_ s'
          = allocated_and_unused_ s - bytes) as Hcap
    by (destruct (_ =? _); injection Hcv as _ <-; reflexivity).
  assert (shards_unused (set_shard ca j s') = shards_unused ca - bytes)
    as Hsum.
  { unfold shards_unused. simpl.
    rewrite (sum_capacities_insert _ _ _ _ Hlook), Hcap. lia. }
  assert (length (data_ (shards_ (set_shard ca j s')))
          = Z.to_nat (CoreLocal.Size (shards_ (set_shard ca j s'))))
    as Hlen' by (simpl; rewrite length_insert; exact Hlen).
  cbn [after]. split; [exact Hsum |].
  unfold AllocatedAndUnused, ApproximateMemoryUsage, MemoryAllocatedBytes,
    IrregularBlockNum.
  rewrite (ShardAllocatedAndUnused_spec _ Hlen),
    (ShardAllocatedAndUnused_spec _ Hlen').
  fold (shards_unused ca). fold (shards_unused (set_shard ca j s')).
  rewrite Hsum. simpl.
  assert (wrap (arena_allocated_and_unused_ ca
                + wrap (shards_unused ca - bytes))
          = wrap (wrap (arena_allocated_and_unused_ ca
                        + wrap (shards_unused ca)) - bytes)) as Hunused.
  { rewrite wrap_wrap_sub, !wrap_add_wrap.
    replace (arena_allocated_and_unused_ ca + wrap (shards_unused ca) - bytes)
      with (arena_allocated_and_unused_ ca - bytes + wrap (shards_unused ca))
      by lia.
    rewrite wrap_add_wrap. f_equal. lia. }
  assert (wrap (Arena_ApproximateMemoryUsage (arena_ ca)
                - wrap (shards_unused ca - bytes))
          = wrap (wrap (Arena_ApproximateMemoryUsage (arena_ ca)
                        - wrap (shards_unused ca)) + bytes)) as Husage.
  { rewrite wrap_wrap_add, !wrap_sub_wrap.
    replace (Arena_ApproximateMemoryUsage (arena_ ca)
             - wrap (shards_unused ca) + bytes)
      with (Arena_ApproximateMemoryUsage (arena_ ca) + bytes
            - wrap (shards_unused ca)) by lia.
    rewrite wrap_sub_wrap. f_equal. lia. }
  split; [| split; [| split; reflexivity]].
  - eexists. split; [reflexivity |]. now rewrite Hunused.
  - eexists. split; [reflexivity |]. now rewrite Husage.
Qed.
End Accounting.

(** ** Bounded shards, aligned results, provenance *)

Section LawfulRuns.
Context {A : Type} `{ArenaLaws A}.
Implicit Types (ca : ConcurrentArena A) (o : Outcome A) (sys : System A).
Implicit Types (origin handed : Z -> Prop).

Lemma capacity_step ca tls env bytes force func o :
  0 <= shard_block_size_ ca <= kMaxShardBlockSize ->
  Forall (fun s => 0 <= allocated_and_unused_ s <= 2 * shard_block_size_ ca)
    (data_ (shards_ ca)) ->
  0 <= bytes ->
  AllocateImpl ca tls env bytes force func = Some o ->
  Forall (fun s => 0 <= allocated_and_unused_ s
                   <= 2 * shard_block_size_ (after o))
    (data_ (shards_ (after o))).
Proof.
  intros Hsbs Hcap Hb Ho. apply AllocateImpl_Serves in Ho.
  destruct Ho as [ev0 p a Hd Hf
                | ev0 i cpu ev1 s p a Hd Hl Hs Hlt Hex Hle Hin Hf
                | ev0 i cpu ev1 s p a q s' Hd Hl Hs Hlt Hex Hno Hal Hcv
                | ev0 i cpu ev1 s q s' Hd Hl Hs Hge Hcv]; simpl;
    try exact Hcap.
  - pose proof (goes_direct_small _ _ _ _ _ _ Hd) as Hsmall.
    rewrite Hex in Hcv.
    destruct (reload_size_bounds ca bytes (conj Hb Hsmall) (proj2 Hsbs))
      as [Hbw Hwr].
    destruct (reload_size_spec ca (Arena_AllocatedAndUnused (arena_ ca)) Hsbs)
      as [Hin' Hout].
    rewrite (carve_spec _ _ _ Hbw Hwr) in Hcv.
    apply Forall_insert; [exact Hcap |].
    assert (reload_size ca (Arena_AllocatedAndUnused (arena_ ca))
            <= 2 * shard_block_size_ ca) as Hw.
    { destruct (Z.le_gt_cases (shard_block_size_ ca / 2)
                  (Arena_AllocatedAndUnused (arena_ ca))) as [Hlo | Hlo];
        [destruct (Z.lt_ge_cases (Arena_AllocatedAndUnused (arena_ ca))
                     (2 * shard_block_size_ ca)) as [Hhi | Hhi] |].
      - rewrite Hin' by lia. lia.
      - rewrite Hout by lia. lia.
      - rewrite Hout by lia. lia. }
    destruct (_ =? _); injection Hcv as _ <-; simpl; lia.
  - pose proof Hs as Hs'. apply AccessAtCore_Some in Hs' as [_ Hlook].
    rewrite Forall_lookup in Hcap. pose proof (Hcap _ _ Hlook) as Hs0.
    rewrite <- Forall_lookup in Hcap.
    assert (size_t_range (allocated_and_unused_ s)) as Hr.
    { revert Hsbs Hs0. unfold SizeT.in_range, kMaxShardBlockSize,
        SizeT.modulus, SizeT.bits. lia. }
    rewrite (carve_spec _ _ _ (conj Hb Hge) Hr) in Hcv.
    apply Forall_insert; [exact Hcap |].
    destruct (_ =? _); injection Hcv as _ <-; simpl; lia.
Qed.

Lemma impl_bytes_nonneg (c : Call) :
  size_t_range (requested (request c)) -> 0 <= impl_bytes (request c).
Proof.
  destruct (request c) as [bytes | bytes h]; simpl.
  - intros [Hlo _]. exact Hlo.
  - intros _. apply (wrap_range _).
Qed.

(** X10.  The memory parked in a shard is bounded: in every state a fresh
    instance reaches, whatever the threads did, each shard's remaining
    capacity lies between 0 and twice [shard_block_size_], that is, is at
    most 256 KiB. *)
Theorem shard_capacity_is_bounded shift block_size huge_page_size
    calls outs sys' :
  0 <= block_size ->
  Forall (fun c => size_t_range (requested (request c))) calls ->
  run (boot shift block_size huge_page_size) calls = Some (outs, sys') ->
  Forall (fun s =>
            0 <= allocated_and_unused_ s
            <= 2 * Z.min kMaxShardBlockSize (block_size / 8)
            /\ allocated_and_unused_ s <= 256 * 1024)
    (data_ (shards_ (the_arena sys'))).
Proof.
  intros Hbs Hreq Hrun.
  set (sbs := Z.min kMaxShardBlockSize (block_size / 8)).
  assert (0 <= sbs <= kMaxShardBlockSize) as Hsbs.
  { unfold sbs. split; [| apply Z.le_min_l].
    apply Z.min_glb; [discriminate | apply Z.div_pos; lia]. }
  assert (forall calls sys outs sys',
            shard_block_size_ (the_arena sys) = sbs ->
            Forall (fun s => 0 <= allocated_and_unused_ s <= 2 * sbs)
              (data_ (shards_ (the_arena sys))) ->
            Forall (fun c => size_t_range (requested (request c))) calls ->
            run sys calls = Some (outs, sys') ->
            Forall (fun s => 0 <= allocated_and_unused_ s <= 2 * sbs)
              (data_ (shards_ (the_arena sys')))) as Hgen.
  { clear calls outs sys' Hreq Hrun.
    induction calls as [| c calls IH];
      intros sys outs sys' Heq Hcap Hreq Hrun.
    - now injection Hrun as _ <-.
    - apply run_cons in Hrun as (o & outs' & Ho & Hrun & ->).
      apply Forall_cons in Hreq as [Hc Hreq].
      apply perform_spec in Ho as [_ Ho].
      pose proof (capacity_step _ _ _ _ _ _ _
                    ltac:(rewrite Heq; exact Hsbs)
                    ltac:(rewrite Heq; exact Hcap)
                    (impl_bytes_nonneg c Hc) Ho) as Hcap'.
      destruct (AllocateImpl_frame _ _ _ _ _ _ _ Ho) as (Hsame & _).
      apply (IH (commit sys c o) outs' sys'); try assumption.
      + simpl. congruence.
      + simpl. rewrite Hsame, Heq in Hcap'. exact Hcap'. }
  eapply Forall_impl.
  - apply (Hgen calls (boot shift block_size huge_page_size) outs sys');
      try assumption; [reflexivity |].
    simpl. apply Forall_replicate. simpl. lia.
  - intros s Hs. simpl in Hs. split; [exact Hs |].
    unfold kMaxShardBlockSize in Hsbs. lia.
Qed.

(** X12.  [AllocateAligned] returns a multiple of the pointer size on
    every path: in any run of a fresh instance each completed
    [AllocateAligned], whether the arena or a shard served it, got a
    word-aligned pointer. *)
Theorem AllocateAligned_is_aligned shift block_size huge_page_size
    calls outs sys' k c o bytes page :
  run (boot shift block_size huge_page_size) calls = Some (outs, sys') ->
  calls !! k = Some c ->
  request c = ReqAllocateAligned bytes page ->
  outs !! k = Some o ->
  rv o mod sizeof_ptr = 0.
Proof.
  intros Hrun Hc Hreq Ho.
  destruct (run_invariant (fun sys => shards_aligned (the_arena sys))
              perform_aligned calls (boot shift block_size huge_page_size)
              outs sys'
              (boot_shards_aligned shift block_size huge_page_size) Hrun)
    as [_ Hk].
  destruct (Hk _ _ _ Hc Ho) as (sysk & Hall & Hperf).
  apply perform_spec in Hperf as [Hok Hperf]. rewrite Hreq in Hok, Hperf.
  simpl in Hok, Hperf.
  destruct (aligned_step _ _ _ _ _ _ _ Hall Hperf) as (_ & _ & Hrv).
  apply Hrv; [eauto |]. apply (rounded_up_ok_spec _ Hok).
Qed.

Lemma AllocateImpl_carved ca tls env bytes force func o origin handed n :
  no_alias ca handed ->
  carved_from ca origin handed ->
  0 <= bytes -> func_size func = bytes -> n <= bytes ->
  AllocateImpl ca tls env bytes force func = Some o ->
  carved_from (after o) origin (fun x => handed x \/ in_range (rv o) n x).
Proof.
  intros Hinv [Hh Hf Hw] Hb Hsize Hn Ho. apply AllocateImpl_Serves in Ho.
  assert (forall q x, in_range q n x -> in_range q bytes x) as Hsub
    by (unfold in_range; intros; lia).
  assert (forall (shards : list Shard) i s' j t,
            <[i := s']> shards !! j = Some t ->
            t = s' \/ shards !! j = Some t) as Hlook.
  { intros shards i s' j t. rewrite list_lookup_insert_Some.
    intros [(_ & <- & _) | (_ & Ht)]; auto. }
  destruct Ho as [ev0 p a Hd Hfn
                | ev0 i cpu ev1 s p a Hd Hl Hs Hlt Hex Hle Hin Hfn
                | ev0 i cpu ev1 s p a q s' Hd Hl Hs Hlt Hex Hno Hal Hcv
                | ev0 i cpu ev1 s q s' Hd Hl Hs Hge Hcv]; simpl.
  - destruct (call_func_fresh _ _ _ _ Hfn) as [Hin' Hout]. rewrite Hsize in *.
    split; simpl.
    + intros x [Hx | Hx]; [exact (Hh x Hx) | exact (Hf x (Hin' x (Hsub _ _ Hx)))].
    + intros x Hx. exact (Hf x (proj1 (Hout x Hx))).
    + exact Hw.
  - destruct (call_func_fresh _ _ _ _ Hfn) as [Hin' Hout]. rewrite Hsize in *.
    split; simpl.
    + intros x [Hx | Hx]; [exact (Hh x Hx) | exact (Hf x (Hin' x (Hsub _ _ Hx)))].
    + intros x Hx. exact (Hf x (proj1 (Hout x Hx))).
    + exact Hw.
  - pose proof (goes_direct_small _ _ _ _ _ _ Hd) as Hsmall.
    rewrite Hex in Hal, Hcv.
    destruct (reload_size_bounds ca bytes (conj Hb Hsmall)
                (na_block_size _ _ Hinv)) as [Hbw Hwr].
    destruct (AllocateAligned_fresh _ _ _ _ _ Hal) as [Hin' Hout].
    destruct (carve_splits _ _ _ _ _ Hbw Hwr Hcv)
      as (_ & Hfresh & Hkeep & _).
    simpl in Hfresh, Hkeep.
    split; simpl.
    + intros x [Hx | Hx]; [exact (Hh x Hx) |].
      exact (Hf x (Hin' x (Hfresh x (Hsub _ _ Hx)))).
    + intros x Hx. exact (Hf x (proj1 (Hout x Hx))).
    + intros j t x Ht Hx. destruct (Hlook _ _ _ _ _ Ht) as [-> | Ht'].
      * exact (Hf x (Hin' x (Hkeep x Hx))).
      * exact (Hw j t x Ht' Hx).
  - pose proof Hs as Hs'. apply AccessAtCore_Some in Hs' as [_ Hlk].
    assert (size_t_range (allocated_and_unused_ s)) as Hwr.
    { pose proof (na_sizes _ _ Hinv) as Hall. rewrite Forall_lookup in Hall.
      exact (Hall _ _ Hlk). }
    destruct (carve_splits _ _ _ _ _ (conj Hb Hge) Hwr Hcv)
      as (_ & Hfresh & Hkeep & _).
    split; simpl.
    + intros x [Hx | Hx]; [exact (Hh x Hx) |].
      exact (Hw _ s x Hlk (Hfresh x (Hsub _ _ Hx))).
    + exact Hf.
    + intros j t x Ht Hx. destruct (Hlook _ _ _ _ _ Ht) as [-> | Ht'].
      * exact (Hw _ s x Hlk (Hkeep x Hx)).
      * exact (Hw j t x Ht' Hx).
Qed.

Lemma perform_carved sys c o origin handed :
  no_alias (the_arena sys) handed ->
  carved_from (the_arena sys) origin handed ->
  size_t_range (requested (request c)) ->
  perform sys c = Some o ->
  carved_from (the_arena (commit sys c o)) origin
    (fun x => handed x \/ in_range (rv o) (requested (request c)) x).
Proof.
  intros Hinv Hcf Hreq Ho. apply perform_spec in Ho as [Hok Ho].
  apply (AllocateImpl_carved (the_arena sys) (tls_of sys (caller c))
           (call_env c) (impl_bytes (request c)) (impl_force (request c))
           (impl_func (request c)) o origin handed (requested (request c))
           Hinv Hcf); [ | | | exact Ho].
  - apply impl_bytes_nonneg, Hreq.
  - destruct (request c); reflexivity.
  - destruct (request c) as [bytes | bytes h]; simpl in *.
    + lia.
    + apply (rounded_up_ok_spec _ Hok).
Qed.

Lemma run_carved calls :
  forall sys origin handed outs sys',
    no_alias (the_arena sys) handed ->
    carved_from (the_arena sys) origin handed ->
    Forall (fun c => size_t_range (requested (request c))) calls ->
    run sys calls = Some (outs, sys') ->
    exists handed',
      no_alias (the_arena sys') handed'
      /\ carved_from (the_arena sys') origin handed'
      /\ (forall x, handed x -> handed' x)
      /\ forall k c o x,
           calls !! k = Some c -> outs !! k = Some o ->
           in_range (rv o) (requested (request c)) x -> handed' x.
Proof.
  induction calls as [| c calls IH];
    intros sys origin handed outs sys' Hinv Hcf Hreq Hrun.
  - injection Hrun as <- <-. exists handed.
    split; [exact Hinv |]. split; [exact Hcf |]. split; [auto |].
    intros k c o x [=].
  - apply run_cons in Hrun as (o & outs' & Ho & Hrun & ->).
    apply Forall_cons in Hreq as [Hc Hreq].
    destruct (perform_no_alias _ _ _ _ Hinv Hc Ho) as [_ Hinv'].
    pose proof (perform_carved _ _ _ _ _ Hinv Hcf Hc Ho) as Hcf'.
    destruct (IH _ _ _ _ _ Hinv' Hcf' Hreq Hrun)
      as (handed' & Hinv'' & Hcf'' & Hmono & Hall).
    exists handed'. split; [exact Hinv'' |]. split; [exact Hcf'' |].
    split; [intros x Hx; apply Hmono; left; exact Hx |].
    intros [| k] c' o' x; simpl.
    + intros [= <-] [= <-] Hx. apply Hmono. right. exact Hx.
    + apply Hall.
Qed.

(** X9.  Callers only ever get memory of the underlying arena, for good:
    in any run of a fresh instance every byte of every returned range was
    among those the newly constructed arena could hand out and is none the
    arena can hand out any more at the end of the run. *)
Theorem returned_memory_comes_from_the_arena shift block_size huge_page_size
    calls outs sys' k c o x :
  Forall (fun c => size_t_range (requested (request c))) calls ->
  run (boot shift block_size huge_page_size) calls = Some (outs, sys') ->
  calls !! k = Some c ->
  outs !! k = Some o ->
  in_range (rv o) (requested (request c)) x ->
  arena_free (Arena_new block_size huge_page_size) x
  /\ ~ arena_free (arena_ (the_arena sys')) x.
Proof.
  intros Hreq Hrun Hc Ho Hx.
  assert (carved_from (the_arena (boot shift block_size huge_page_size))
            (arena_free (Arena_new block_size huge_page_size))
            (fun _ => False)) as Hcf.
  { split; simpl; [tauto | auto |].
    intros i s y Hs Hy. apply lookup_replicate in Hs as [-> _].
    unfold window, in_range in Hy; simpl in Hy. lia. }
  destruct (run_carved calls _ _ _ _ _
              (boot_no_alias shift block_size huge_page_size) Hcf Hreq Hrun)
    as (handed' & Hinv & Hcf' & _ & Hall).
  pose proof (Hall _ _ _ _ Hc Ho Hx) as Hhanded.
  split; [exact (cf_handed _ _ _ Hcf' x Hhanded) |].
  intros Hfree. exact (na_free _ _ Hinv x Hfree Hhanded).
Qed.
End LawfulRuns.

(** * The further properties on the scenarios *)

Lemma fresh_run_completes_witness :
  exists outs sys',
    run Scenario.fresh Scenario.calls = Some (outs, sys')
    /\ length outs = 7%nat.
Proof.
  destruct (fresh_run_completes 3 4096 0 Scenario.calls ltac:(lia))
    as (outs & sys' & Hrun & Hlen & _).
  - repeat constructor; vm_compute; congruence.
  - exists outs, sys'. split; [exact Hrun | exact Hlen].
Defined.

Lemma statistics_are_current_witness :
  exists outs sys',
    run Scenario.fresh Scenario.calls = Some (outs, sys')
    /\ MemoryAllocatedBytes (the_arena sys')
       = Some (Arena_MemoryAllocatedBytes (arena_ (the_arena sys')),
               the_arena sys', [])
    /\ AllocatedAndUnused (the_arena sys')
       = Some (wrap (Arena_AllocatedAndUnused (arena_ (the_arena sys'))
                     + wrap (shards_unused (the_arena sys'))),
               the_arena sys', []).
Proof.
  destruct (run Scenario.fresh Scenario.calls) as [[outs sys'] |] eqn:Hrun;
    [| vm_compute in Hrun; discriminate Hrun].
  exists outs, sys'. split; [reflexivity |].
  destruct (statistics_are_current 3 4096 0 Scenario.calls outs sys'
              ltac:(lia) Hrun) as (Hmem & _ & Hunused).
  split; assumption.
Defined.

Lemma shard_served_accounting_witness :
  exists o v,
    AllocateImpl Scenario.hundred 0 Scenario.arena_busy 13 false
      (FAllocate 13) = Some o
    /\ shards_unused Scenario.hundred = 100
    /\ shards_unused (after o) = 100 - 13
    /\ AllocatedAndUnused Scenario.hundred = Some (v, Scenario.hundred, [])
    /\ AllocatedAndUnused (after o) = Some (wrap (v - 13), after o, []).
Proof.
  destruct (AllocateImpl Scenario.hundred 0 Scenario.arena_busy 13 false
              (FAllocate 13)) as [o |] eqn:Ho;
    [| vm_compute in Ho; discriminate Ho].
  assert (path o = ShardPath 0 false) as Hpath
    by (vm_compute in Ho; injection Ho as <-; reflexivity).
  destruct (shard_served_accounting Scenario.hundred 0 Scenario.arena_busy 13
              false (FAllocate 13) o 0) as (Hsum & (v & Hv & Hv') & _).
  - vm_compute. reflexivity.
  - repeat constructor; simpl; lia.
  - lia.
  - exact Ho.
  - exact Hpath.
  - exists o, v. split; [reflexivity |]. split; [reflexivity |].
    split; [exact Hsum |]. split; assumption.
Defined.

Lemma locks_are_nested_witness :
  exists o,
    AllocateImpl (the_arena Scenario.fresh) 0 (Scenario.shard_busy 5) 100
      false (FAllocate 100) = Some o
    /\ events o = [ArenaTryLock false; ShardTryLock 0 false; ShardLock 5;
                   ArenaLock; ArenaUnlock; ShardUnlock 5]
    /\ locks_ok false None (events o) = true
    /\ repicks (events o) = 1%nat.
Proof.
  destruct (AllocateImpl (the_arena Scenario.fresh) 0 (Scenario.shard_busy 5)
              100 false (FAllocate 100)) as [o |] eqn:Ho;
    [| vm_compute in Ho; discriminate Ho].
  exists o. split; [reflexivity |].
  destruct (locks_are_nested _ _ _ _ _ _ _ Ho) as (Hok & _ & Hone).
  split; [vm_compute in Ho; injection Ho as <-; reflexivity |].
  split; [exact Hok |]. apply Hone.
  split; [| reflexivity].
  vm_compute in Ho. injection Ho as <-. discriminate.
Defined.

Lemma zero_bytes_from_shard_witness :
  exists o,
    AllocateImpl (the_arena Scenario.fresh) 0 Scenario.arena_busy 0 false
      (FAllocate 0) = Some o
    /\ rv o = 0
    /\ after o = the_arena Scenario.fresh.
Proof.
  destruct (zero_bytes_from_shard (the_arena Scenario.fresh) 0
              Scenario.arena_busy false (FAllocate 0) [ArenaTryLock false]
              0 0 [ShardTryLock 0 true] Shard_new
              ltac:(apply size_t_small; simpl; lia)
              ltac:(vm_compute; reflexivity)
              ltac:(vm_compute; reflexivity)
              ltac:(vm_compute; reflexivity))
    as (o & Ho & _ & Hsame & _ & Hnull).
  exists o. split; [exact Ho |]. split; [exact (Hnull eq_refl) | exact Hsame].
Defined.

Lemma AllocateAligned_domain_witness :
  size_t_range (SizeT.max - 8)
  /\ rounded_up_ok (SizeT.max - 8) = true
  /\ size_t_range (SizeT.max - 7)
  /\ AllocateAligned (the_arena Scenario.fresh) 0 Scenario.idle
       (SizeT.max - 7) 0 = None.
Proof.
  assert (size_t_range (SizeT.max - 8)) as H8
    by (vm_compute; split; congruence).
  assert (size_t_range (SizeT.max - 7)) as H7
    by (vm_compute; split; congruence).
  split; [exact H8 |].
  split.
  - apply (proj1 (AllocateAligned_domain (the_arena Scenario.fresh) 0
                    Scenario.idle (SizeT.max - 8) 0 H8)).
    vm_compute. discriminate.
  - split; [exact H7 |].
    apply (proj1 (proj2 (AllocateAligned_domain (the_arena Scenario.fresh) 0
                           Scenario.idle (SizeT.max - 7) 0 H7))).
    vm_compute. reflexivity.
Defined.

Lemma rounded_up_algebra_witness :
  (0 <= 16 <= 17) /\ 17 <= SizeT.max - (sizeof_ptr - 1)
  /\ rounded_up 16 = 16
  /\ rounded_up (rounded_up 16) = rounded_up 16
  /\ rounded_up 16 <= rounded_up 17.
Proof.
  assert (0 <= 16 <= 17) as Hb by lia.
  assert (17 <= SizeT.max - (sizeof_ptr - 1)) as Hmax
    by (vm_compute; discriminate).
  destruct (rounded_up_algebra 16 17 Hb Hmax) as (Hfix & Hidem & Hmono).
  split; [exact Hb |]. split; [exact Hmax |].
  split; [exact (Hfix eq_refl) |]. split; [exact Hidem | exact Hmono].
Defined.

(** 24 bytes on a two-megabyte huge page go to the arena although the
    caller has re-picked and slot 0's shard has a window; [SIZE_MAX] bytes
    abort. *)
Lemma huge_page_size_forces_arena_witness :
  (exists o,
     AllocateAligned Scenario.hundred 13 Scenario.idle 24 2097152 = Some o
     /\ path o = DirectPath
     /\ shards_ (after o) = shards_ Scenario.hundred
     /\ events o = [ArenaLock; ArenaUnlock])
  /\ AllocateAligned Scenario.hundred 13 Scenario.idle SizeT.max 2097152
     = None.
Proof.
  assert (2097152 <> 0) as Hhuge by discriminate.
  split.
  - pose proof (huge_page_size_forces_arena Scenario.hundred 13 Scenario.idle
                  24 2097152 Hhuge) as Hcall.
    change (rounded_up_ok 24) with true in Hcall.
    destruct Hcall as (o & Ho & Hpath & _ & Hsh & _ & Hev).
    exists o. auto.
  - pose proof (huge_page_size_forces_arena Scenario.hundred 13 Scenario.idle
                  SizeT.max 2097152 Hhuge) as Hcall.
    change (rounded_up_ok SizeT.max) with false in Hcall.
    exact Hcall.
Defined.

Lemma returned_memory_comes_from_the_arena_witness :
  exists outs sys' o,
    run Scenario.fresh Scenario.calls = Some (outs, sys')
    /\ outs !! 3%nat = Some o
    /\ rv o = 4611
    /\ arena_free (Arena_new (A := SimpleArena.t) 4096 0) 4611
    /\ ~ arena_free (arena_ (the_arena sys')) 4611.
Proof.
  eexists _, _, _.
  split; [vm_compute; reflexivity |].
  split; [reflexivity |]. split; [reflexivity |].
  eapply (returned_memory_comes_from_the_arena 3 4096 0 Scenario.calls _ _ 3
            (MkCall 0 (ReqAllocate 13) Scenario.arena_busy) _ 4611).
  - repeat constructor; simpl; try (apply size_t_small; lia).
  - vm_compute; reflexivity.
  - reflexivity.
  - reflexivity.
  - vm_compute. split; [discriminate | reflexivity].
Defined.

Lemma shard_capacity_is_bounded_witness :
  exists outs sys',
    run Scenario.fresh Scenario.calls = Some (outs, sys')
    /\ Forall (fun s => 0 <= allocated_and_unused_ s
                        <= 2 * Z.min kMaxShardBlockSize (4096 / 8)
                        /\ allocated_and_unused_ s <= 256 * 1024)
         (data_ (shards_ (the_arena sys'))).
Proof.
  destruct (run Scenario.fresh Scenario.calls) as [[outs sys'] |] eqn:Hrun;
    [| vm_compute in Hrun; discriminate Hrun].
  exists outs, sys'. split; [reflexivity |].
  apply (shard_capacity_is_bounded 3 4096 0 Scenario.calls outs sys').
  - lia.
  - repeat constructor; simpl; try (apply size_t_small; lia).
  - exact Hrun.
Defined.

(** Threads 0 and 1 have not re-picked; thread 2, which makes no call,
    keeps the id 13 an earlier instance left it. *)
Lemma uncontended_runs_stay_direct_witness :
  exists outs sys',
    run Workload.second_instance Workload.idle_calls = Some (outs, sys')
    /\ Forall (fun o => path o = DirectPath) outs
    /\ shards_ (the_arena sys') = CoreLocal.make 3 Shard_new
    /\ tls_of sys' 1 = 0
    /\ tls_of sys' 2 = 13.
Proof.
  destruct (run Workload.second_instance Workload.idle_calls)
    as [[outs sys'] |] eqn:Hrun;
    [| vm_compute in Hrun; discriminate Hrun].
  exists outs, sys'. split; [reflexivity |].
  destruct (uncontended_runs_stay_direct Workload.leftover_ids 3 4096 0
              Workload.idle_calls outs sys')
    as (Hall & Hsh & Hz).
  - repeat constructor.
  - repeat constructor.
  - exact Hrun.
  - split; [exact Hall |]. split; [exact Hsh |].
    split; [exact (Hz 1%nat) | exact (Hz 2%nat)].
Defined.

(** The hypothesis on the callers' ids is needed: thread 2 arrives at the
    new instance with the id 13, so its small request after the same calls
    does not try the arena mutex, free as it is, and shard 5 gets a
    window. *)
Lemma leftover_id_reaches_a_shard :
  exists outs sys' o,
    run Workload.second_instance
      (Workload.idle_calls ++ [MkCall 2 (ReqAllocate 16) Scenario.idle])
    = Some (outs, sys')
    /\ outs !! 4%nat = Some o
    /\ path o = ShardPath 5 true
    /\ events o = [ShardTryLock 5 true; ArenaLock; ArenaUnlock; ShardUnlock 5]
    /\ tls_after o = 13
    /\ data_ (shards_ (the_arena sys')) !! 5%nat = Some (MkShard 4184 496).
Proof.
  eexists _, _, _. split; [vm_compute; reflexivity |]. repeat split.
Qed.

Lemma AllocateAligned_is_aligned_witness :
  exists outs sys' o,
    run Scenario.fresh Scenario.calls = Some (outs, sys')
    /\ outs !! 4%nat = Some o
    /\ rv o = 4624
    /\ rv o mod sizeof_ptr = 0.
Proof.
  eexists _, _, _.
  split; [vm_compute; reflexivity |].
  split; [reflexivity |]. split; [reflexivity |].
  eapply (AllocateAligned_is_aligned 3 4096 0 Scenario.calls _ _ 4
            (MkCall 1 (ReqAllocateAligned 13 0) (Scenario.shard_busy 5)) _
            13 0).
  - vm_compute; reflexivity.
  - reflexivity.
  - reflexivity.
  - reflexivity.
Defined.

Lemma ids_are_zero_or_repicked_witness :
  exists outs sys',
    run Scenario.fresh Scenario.calls = Some (outs, sys')
    /\ tls_of sys' 1 = 11
    /\ (tls_of sys' 1 = 0
        \/ CoreLocal.Size (shards_ (the_arena sys')) <= tls_of sys' 1
           < 2 * CoreLocal.Size (shards_ (the_arena sys'))).
Proof.
  destruct (run Scenario.fresh Scenario.calls) as [[outs sys'] |] eqn:Hrun;
    [| vm_compute in Hrun; discriminate Hrun].
  exists outs, sys'. split; [reflexivity |].
  split; [vm_compute in Hrun; injection Hrun as _ <-; vm_compute; reflexivity |].
  exact (proj2 (ids_are_zero_or_repicked 3 4096 0 Scenario.calls outs sys' 1
                  Hrun)).
Defined.

Lemma shard_requests_are_small_witness :
  exists outs sys' o,
    run Scenario.fresh Scenario.calls = Some (outs, sys')
    /\ outs !! 2%nat = Some o
    /\ path o = ShardPath 0 true
    /\ shard_block_size_ (the_arena sys') = Z.min kMaxShardBlockSize (4096 / 8)
    /\ 16 <= Z.min kMaxShardBlockSize (4096 / 8) / 4.
Proof.
  destruct (run Scenario.fresh Scenario.calls) as [[outs sys'] |] eqn:Hrun;
    [| vm_compute in Hrun; discriminate Hrun].
  destruct (outs !! 2%nat) as [o |] eqn:Ho;
    [| vm_compute in Hrun; injection Hrun as <- _; discriminate Ho].
  assert (path o = ShardPath 0 true) as Hpath.
  { vm_compute in Hrun. injection Hrun as <- _. injection Ho as <-.
    reflexivity. }
  exists outs, sys', o.
  split; [reflexivity |]. split; [exact Ho |]. split; [exact Hpath |].
  destruct (shard_requests_are_small 3 4096 0 Scenario.calls outs sys' 2
              (MkCall 0 (ReqAllocate 16) Scenario.arena_busy) o
              Hrun eq_refl Ho ltac:(rewrite Hpath; discriminate))
    as (Hsbs & Hle & _ & _).
  split; [exact Hsbs | exact Hle].
Defined.
